(** * Livia: a shallow embedding of the message-processing core

  The Python sources embedded here are
  - [agent/guardrails.py]   (module [Guardrails]),
  - [tools/mcp/zapier_mcps.py] (module [ZapierMcps]),
  - [agent/processor.py]    (module [AgentProcessor]),
  - [server/message_processor.py] (module [MessageProcessor]),
  - [server/event_handlers.py] (modules [EventHandlers] and [ThinkCommand]),
  - [tools/document_processor.py] (module [DocumentProcessor]);
  [server/context_manager.py] is not among the sources, and module
  [ContextManager] follows the specification's contract for it.

  Python values are modelled as follows.  A [str] is the list of its
  Unicode code points, so that [len] is [length] and slicing is
  [take]/[drop]; a [float] is an IEEE-754 binary64 value ([spec_float]);
  a [dict] with a fixed set of keys is a record, a [dict] used as a map is a
  [gmap], a [set] is a [gset]; an exception that can reach a handler is a
  value of type [exn]; calls into the model runtime, the Slack client and
  modules outside this development are arguments of the functions that make
  them. *)

From Stdlib Require Import ZArith NArith List String Ascii Bool Lia Sorted.
From Stdlib Require Import Floats.SpecFloat.
From stdpp Require Import prelude gmap.

Set Default Proof Using "Type".

(* ===================================================================== *)
(** * Python strings *)
(* ===================================================================== *)

Module PyStr.

(** A code point. *)
Definition char := N.

(** A Python [str]. *)
Definition str := list N.

(** ** Literals

    String literals of the sources are written [u "..."]; the literal's
    bytes are decoded from UTF-8. *)

Fixpoint utf8_decode (bs : list N) : str :=
  match bs with
  | [] => []
  | b0 :: r0 =>
    if (b0 <? 128)%N then b0 :: utf8_decode r0
    else if (b0 <? 224)%N then
      match r0 with
      | b1 :: r1 => ((b0 - 192) * 64 + (b1 - 128))%N :: utf8_decode r1
      | [] => [b0]
      end
    else if (b0 <? 240)%N then
      match r0 with
      | b1 :: b2 :: r2 =>
        ((b0 - 224) * 4096 + (b1 - 128) * 64 + (b2 - 128))%N :: utf8_decode r2
      | _ => b0 :: utf8_decode r0
      end
    else
      match r0 with
      | b1 :: b2 :: b3 :: r3 =>
        ((b0 - 240) * 262144 + (b1 - 128) * 4096 + (b2 - 128) * 64 + (b3 - 128))%N
          :: utf8_decode r3
      | _ => b0 :: utf8_decode r0
      end
  end.

Definition u (s : string) : str :=
  utf8_decode (map N_of_ascii (list_ascii_of_string s)).

(** ** [str.lower()]

    Every keyword and marker the sources search for after lower-casing is
    ASCII.  [lower] is Python's [str.lower] on all code points whose
    lower-case form contains an ASCII letter: [A]-[Z], U+212A KELVIN SIGN
    (lower-case [k]) and U+0130 (lower-case [i] followed by U+0307).  Every
    other code point lower-cases to code points outside ASCII and is kept
    as it is, which no search for an ASCII needle can tell apart. *)

Definition lower_char (c : char) : str :=
  if ((65 <=? c) && (c <=? 90))%N then [(c + 32)%N]
  else if (c =? 8490)%N then [107%N]
  else if (c =? 304)%N then [105%N; 775%N]
  else [c].

Definition lower (s : str) : str := flat_map lower_char s.

(** ** [needle in hay] *)

Fixpoint starts_with (p s : str) : bool :=
  match p, s with
  | [], _ => true
  | _ :: _, [] => false
  | a :: p', b :: s' => (a =? b)%N && starts_with p' s'
  end.

Fixpoint str_in (needle hay : str) : bool :=
  starts_with needle hay
  || match hay with
     | [] => false
     | _ :: hay' => str_in needle hay'
     end.

(** ** [str.strip()]

    The code points Python treats as white space. *)

Definition isspace (c : char) : bool :=
  (((9 <=? c) && (c <=? 13)) || ((28 <=? c) && (c <=? 32))
   || (c =? 133) || (c =? 160) || (c =? 5760)
   || ((8192 <=? c) && (c <=? 8202))
   || (c =? 8232) || (c =? 8233) || (c =? 8239) || (c =? 8287)
   || (c =? 12288))%N.

Fixpoint lstrip (s : str) : str :=
  match s with
  | [] => []
  | c :: s' => if isspace c then lstrip s' else s
  end.

Definition rstrip (s : str) : str := rev (lstrip (rev s)).

Definition strip (s : str) : str := rstrip (lstrip s).

(** ** [s.split(sep)] for a non-empty [sep]

    The pieces between the non-overlapping occurrences of [sep], scanning
    from the left.  [skip] counts the code points of a matched separator
    that are still to be passed over. *)

Definition cons_head (c : char) (ps : list str) : list str :=
  match ps with
  | [] => [[c]]
  | p :: ps' => (c :: p) :: ps'
  end.

Fixpoint split_go (sep : str) (skip : nat) (s : str) : list str :=
  match s with
  | [] => [[]]
  | c :: s' =>
    match skip with
    | S k => split_go sep k s'
    | O =>
      if starts_with sep s then [] :: split_go sep (length sep - 1) s'
      else cons_head c (split_go sep 0 s')
    end
  end.

Definition split (sep s : str) : list str := split_go sep 0 s.

(** ** [sep.join(parts)] *)

Fixpoint join (sep : str) (parts : list str) : str :=
  match parts with
  | [] => []
  | [p] => p
  | p :: ps => p ++ sep ++ join sep ps
  end.

(** Truthiness of a string. *)
Definition truthy (s : str) : bool :=
  match s with [] => false | _ => true end.

End PyStr.

Import PyStr.

(* ===================================================================== *)
(** * agent/guardrails.py *)
(* ===================================================================== *)

Module Guardrails.

(** [class ProfessionalContentOutput(BaseModel)] *)
Record ProfessionalContentOutput := {
  is_inappropriate : bool;
  category : str;
  reasoning : str;
  confidence_score : spec_float
}.

(** [GuardrailFunctionOutput] of the agents SDK, as far as it is built
    here. *)
Record GuardrailFunctionOutput := {
  output_info : ProfessionalContentOutput;
  tripwire_triggered : bool
}.

(** The items of a list input: an object with a [text] attribute, a plain
    string, or anything else. *)
Inductive input_item :=
| ItemWithText (text : str)
| ItemStr (s : str)
| ItemOther.

Inductive guardrail_input :=
| InputStr (s : str)
| InputList (items : list input_item).

(** The float literal [0.7]: the binary64 value 0x1.6666666666666p-1. *)
Definition threshold : spec_float := S754_finite false 6305039478318694 (-53).

(** [x > y] on floats. *)
Definition float_gt (x y : spec_float) : bool := SFltb y x.

(** [x <= y] on floats. *)
Definition float_le (x y : spec_float) : bool := SFleb x y.

Definition input_text (input : guardrail_input) : str :=
  match input with
  | InputList items =>
    strip (fold_left
             (fun text_content item =>
                match item with
                | ItemWithText t => text_content ++ t ++ u " "
                | ItemStr s => text_content ++ s ++ u " "
                | ItemOther => text_content
                end)
             items [])
  | InputStr s => s
  end.

(** [professional_content_guardrail]; [run_guardrail_agent prompt] is the
    [final_output] of [Runner.run(guardrail_agent, prompt)]. *)
Definition professional_content_guardrail
    (run_guardrail_agent : str -> ProfessionalContentOutput)
    (input : guardrail_input) : GuardrailFunctionOutput :=
  let analysis :=
    run_guardrail_agent
      (u "Analise esta mensagem para ambiente profissional: " ++ input_text input) in
  {| output_info := analysis;
     tripwire_triggered :=
       is_inappropriate analysis && float_gt (confidence_score analysis) threshold |}.

(** Does the loop over a list input read the item? *)
Definition has_text (item : input_item) : bool :=
  match item with
  | ItemOther => false
  | _ => true
  end.

End Guardrails.

(* ===================================================================== *)
(** * Exceptions and results *)
(* ===================================================================== *)

(** The exceptions the handlers of the sources can see.  The handlers tell
    [InputGuardrailTripwireTriggered] from everything else and otherwise read
    only [str(e)]. *)
Inductive exn :=
| InputGuardrailTripwireTriggered (message : str)
| OtherException (type_name message : str).

(** [str(e)] *)
Definition str_of_exn (e : exn) : str :=
  match e with
  | InputGuardrailTripwireTriggered m => m
  | OtherException _ m => m
  end.

(** The outcome of a call that may raise. *)
Inductive result (A : Type) :=
| Return (a : A)
| Raise (e : exn).

Arguments Return {A} a.
Arguments Raise {A} e.

(* ===================================================================== *)
(** * tools/mcp/zapier_mcps.py *)
(* ===================================================================== *)

Module ZapierMcps.

(** An entry of [ZAPIER_MCPS].  The [url], [api_key] and [description]
    strings of the table are read by no function embedded here and are left
    out. *)
Record mcp_config := {
  name : str;
  server_label : str;
  keywords : list str;
  priority : Z
}.

(** [ZAPIER_MCPS], in the order the dict literal lists its keys. *)
Definition ZAPIER_MCPS : list (str * mcp_config) :=
  [ (u "google_drive",
     {| name := u "Zapier Google Drive MCP"; server_label := u "zapier-gdrive";
        keywords := [u "google drive"; u "drive"; u "gdrive"]; priority := 1 |});
    (u "mcpEverhour",
     {| name := u "Zapier mcpEverhour"; server_label := u "zapier-mcpeverhour";
        keywords := [u "everhour"]; priority := 2 |});
    (u "mcpGmail",
     {| name := u "Zapier mcpGmail"; server_label := u "zapier-mcpgmail";
        keywords := [u "gmail"]; priority := 3 |});
    (u "mcpAsana",
     {| name := u "Zapier mcpAsana"; server_label := u "zapier-mcpasana";
        keywords := [u "asana"]; priority := 4 |});
    (u "mcpGoogleCalendar",
     {| name := u "Zapier mcpGoogleCalendar"; server_label := u "zapier-mcpgooglecalendar";
        keywords := [u "calendar"]; priority := 5 |});
    (u "mcpGoogleDocs",
     {| name := u "Zapier mcpGoogleDocs"; server_label := u "zapier-mcpgoogledocs";
        keywords := [u "docs"]; priority := 6 |});
    (u "mcpGoogleSheets",
     {| name := u "Zapier mcpGoogleSheets"; server_label := u "zapier-mcpgooglesheets";
        keywords := [u "sheets"]; priority := 7 |});
    (u "mcpSlack",
     {| name := u "Zapier mcpSlack"; server_label := u "zapier-mcpslack";
        keywords := [u "slack"]; priority := 8 |}) ].

Definition PRIORITY_ORDER : list str :=
  [ u "google_drive"; u "mcpEverhour"; u "mcpGmail"; u "mcpAsana";
    u "mcpGoogleCalendar"; u "mcpGoogleDocs"; u "mcpGoogleSheets"; u "mcpSlack" ].

(** [table[key]] on a dict given by its items. *)
Fixpoint dict_get {V : Type} (table : list (str * V)) (key : str) : option V :=
  match table with
  | [] => None
  | (k, v) :: rest => if bool_decide (k = key) then Some v else dict_get rest key
  end.

(** The inner loop of [get_mcp_by_keywords]: does some keyword of the list
    occur in the lower-cased message? *)
Fixpoint any_keyword_in (kws : list str) (message_lower : str) : bool :=
  match kws with
  | [] => false
  | keyword :: rest =>
    if str_in keyword message_lower then true else any_keyword_in rest message_lower
  end.

(** The outer loop, over the names still to be tried.  A name missing from
    the table raises [KeyError]. *)
Fixpoint first_match (table : list (str * mcp_config)) (order : list str)
    (message_lower : str) : result (option (str * mcp_config)) :=
  match order with
  | [] => Return None
  | mcp_name :: rest =>
    match dict_get table mcp_name with
    | None => Raise (OtherException (u "KeyError") (u "'" ++ mcp_name ++ u "'"))
    | Some mcp_config =>
      if any_keyword_in (keywords mcp_config) message_lower
      then Return (Some (mcp_name, mcp_config))
      else first_match table rest message_lower
    end
  end.

Definition get_mcp_by_keywords (message : str) : result (option (str * mcp_config)) :=
  let message_lower := lower message in
  first_match ZAPIER_MCPS PRIORITY_ORDER message_lower.

(** [name] matches a lower-cased message when the table has it and one of
    its keywords occurs in the message. *)
Definition matches (table : list (str * mcp_config)) (message_lower : str) (name : str)
    : Prop :=
  exists cfg, dict_get table name = Some cfg /\
              any_keyword_in (keywords cfg) message_lower = true.

(** [n1] comes no later than [n2] by the ["priority"] entries of the
    table. *)
Definition by_priority (table : list (str * mcp_config)) (n1 n2 : str) : Prop :=
  forall c1 c2, dict_get table n1 = Some c1 -> dict_get table n2 = Some c2 ->
                (priority c1 <= priority c2)%Z.

(** The message of the routing example. *)
Definition agenda_message : str := u "preciso ver minha agenda no calendar hoje".

(** The keywords of the integrations that come before Google Calendar in
    [PRIORITY_ORDER]. *)
Definition keywords_before_calendar : list str :=
  [ u "google drive"; u "drive"; u "gdrive"; u "everhour"; u "gmail"; u "asana" ].

End ZapierMcps.

(* ===================================================================== *)
(** * agent/processor.py *)
(* ===================================================================== *)

Module AgentProcessor.

(** The ["type"] entry of a tool-call record. *)
Inductive tool_type :=
| tool_call_started
| file_search_call
| tool_call_completed.

(** The ["arguments"] entry: the item's [arguments] attribute, or the empty
    dict. *)
Inductive arguments :=
| EmptyDict
| RawArguments (raw : str).

(** A tool-call record, the dict [tool_info].  [output] is [None] while the
    dict has no ["output"] key; [Some o] once the key is set, to [o] (itself
    [None] for Python's [None]). *)
Record tool_info := {
  tool_name : str;
  tool_arguments : arguments;
  type : tool_type;
  output : option (option str)
}.

(** [event.item] of a run-item event; the attributes read with [getattr]
    may be missing. *)
Record run_item := {
  item_type : str;
  item_name : option str;
  item_arguments : option arguments;
  item_output : option str
}.

(** [event.data] of a raw response event: a [ResponseTextDeltaEvent], or
    another object that may have a [delta] attribute. *)
Inductive event_data :=
| TextDelta (delta : str)
| OtherData (delta : option str).

(** The events of [result.stream_events()], by [event.type]. *)
Inductive stream_event :=
| raw_response_event (data : event_data)
| run_item_stream_event (item : run_item)
| other_event.

(** One call of [stream_callback(delta_text, full_response, tool_calls)],
    with the tool-call list as it is at the time of the call. *)
Record callback_call := {
  delta_text : str;
  full_text : str;
  tool_calls_detected : list tool_info
}.

(** A stream callback: what the call does is outside the model, except that
    it may raise. *)
Definition callback := callback_call -> option exn.

(** [dummy_callback] *)
Definition dummy_callback : callback := fun _ => None.

(** The local state of the streaming loop, and the callback calls made so
    far. *)
Record stream_state := {
  full_response : str;
  tool_calls : list tool_info;
  calls : list callback_call
}.

(** [tool_calls[-1].update({"output": o, "type": "tool_call_completed"})] *)
Fixpoint update_last (tcs : list tool_info) (o : option str) : list tool_info :=
  match tcs with
  | [] => []
  | [t] =>
    [ {| tool_name := tool_name t; tool_arguments := tool_arguments t;
         type := tool_call_completed; output := Some o |} ]
  | t :: rest => t :: update_last rest o
  end.

(** [await stream_callback(delta, full_response, tool_calls)] *)
Definition invoke (cb : callback) (delta : str) (st : stream_state)
    : stream_state * option exn :=
  let call := {| delta_text := delta; full_text := full_response st;
                 tool_calls_detected := tool_calls st |} in
  ({| full_response := full_response st; tool_calls := tool_calls st;
      calls := calls st ++ [call] |}, cb call).

(** A text delta: [full_response += delta_text], then the callback. *)
Definition on_delta (cb : callback) (st : stream_state) (delta : str)
    : stream_state * option exn :=
  invoke cb delta
    {| full_response := full_response st ++ delta; tool_calls := tool_calls st;
       calls := calls st |}.

(** [tool_calls.append(tool_info)], then the callback with an empty delta. *)
Definition on_tool (cb : callback) (st : stream_state) (t : tool_info)
    : stream_state * option exn :=
  invoke cb []
    {| full_response := full_response st; tool_calls := tool_calls st ++ [t];
       calls := calls st |}.

(** The body of the [async for] loop. *)
Definition on_event (cb : callback) (st : stream_state) (event : stream_event)
    : stream_state * option exn :=
  match event with
  | raw_response_event (TextDelta delta) =>
    if truthy delta then on_delta cb st delta else (st, None)
  | raw_response_event (OtherData (Some delta)) =>
    if truthy delta then on_delta cb st delta else (st, None)
  | raw_response_event (OtherData None) => (st, None)
  | run_item_stream_event item =>
    if bool_decide (item_type item = u "tool_call_item") then
      on_tool cb st
        {| tool_name := default (u "unknown") (item_name item);
           tool_arguments := default EmptyDict (item_arguments item);
           type := tool_call_started; output := None |}
    else if bool_decide (item_type item = u "file_search_call") then
      on_tool cb st
        {| tool_name := u "file_search"; tool_arguments := EmptyDict;
           type := file_search_call; output := None |}
    else if bool_decide (item_type item = u "tool_call_output_item") then
      match tool_calls st with
      | [] => (st, None)
      | _ :: _ =>
        ({| full_response := full_response st;
            tool_calls := update_last (tool_calls st) (item_output item);
            calls := calls st |}, None)
      end
    else (st, None)
  | other_event => (st, None)
  end.

(** The [async for] loop over the events the stream yields; it stops at the
    first exception. *)
Fixpoint stream_loop (cb : callback) (events : list stream_event) (st : stream_state)
    : stream_state * option exn :=
  match events with
  | [] => (st, None)
  | event :: rest =>
    match on_event cb st event with
    | (st', Some e) => (st', Some e)
    | (st', None) => stream_loop cb rest st'
    end
  end.

(** The ["token_usage"] dict; a key may be missing. *)
Record usage := {
  usage_input : option Z;
  usage_output : option Z;
  usage_total : option Z
}.

(** The dict a message processor returns; ["token_usage"] may be missing. *)
Record response := {
  text : str;
  tools : list tool_info;
  token_usage : option usage
}.

(** [{"input": 0, "output": 0, "total": 0}] *)
Definition zero_usage : usage :=
  {| usage_input := Some 0%Z; usage_output := Some 0%Z; usage_total := Some 0%Z |}.

(** The items of a multimodal input. *)
Inductive content_item :=
| input_text (text : str)
| input_image (image_url detail : str).

(** [agent_input]: the message, or one user turn with text and images. *)
Inductive agent_input :=
| TextInput (message : str)
| VisionInput (content_items : list content_item).

(** What [Runner.run_streamed] returns: the events [stream_events()] yields,
    the exception it raises after them (if any), and [final_output]. *)
Record run_result_streaming := {
  events : list stream_event;
  failure : option exn;
  final_output : option str
}.

(** The calls [process_message] makes outside this module. *)
Record runtime := {
  detect_zapier_mcp_needed : str -> option str;
  process_message_with_enhanced_multiturn_mcp :
    str -> str -> option (list str) -> result response;
  process_message_with_zapier_mcp_streaming :
    str -> str -> option (list str) -> result response;
  run_streamed : agent_input -> result run_result_streaming
}.

(** The reply returned when the guardrail exception is caught. *)
Definition guardrail_response : response :=
  {| text := u "⚠️ Desculpe, mas não posso responder a esse tipo de conteúdo em um ambiente profissional. Por favor, mantenha as conversas relacionadas ao trabalho e produtividade.";
     tools := [];
     token_usage := Some zero_usage |}.

(** [error_msg] of the outer handler. *)
Definition error_msg (e : exn) : str :=
  if str_in (u "rate_limit") (lower (str_of_exn e)) then
    u "Muitas solicitações simultâneas. Tente novamente em alguns instantes."
  else if str_in (u "timeout") (lower (str_of_exn e)) then
    u "Timeout na resposta. Tente novamente com uma mensagem mais simples."
  else if str_in (u "connection") (lower (str_of_exn e)) then
    u "Erro de conexão. Tente novamente em alguns instantes."
  else u "Erro no processamento da mensagem: " ++ str_of_exn e.

(** The dict the outer handler returns. *)
Definition error_response (e : exn) : response :=
  {| text := error_msg e; tools := []; token_usage := Some zero_usage |}.

(** [full_response or str(result.final_output) if result.final_output
    else "No response generated."]: the conditional binds last. *)
Definition final_text (full_response : str) (final_output : option str) : str :=
  match final_output with
  | Some o =>
    if truthy o then (if truthy full_response then full_response else o)
    else u "No response generated."
  | None => u "No response generated."
  end.

Definition make_agent_input (message : str) (image_urls : option (list str)) : agent_input :=
  match image_urls with
  | Some (url :: urls) =>
    VisionInput (input_text message
                 :: map (fun image_url => input_image image_url (u "low")) (url :: urls))
  | _ => TextInput message
  end.

Definition initial_state : stream_state :=
  {| full_response := []; tool_calls := []; calls := [] |}.

(** The native path: everything from [# Use native Agents SDK with
    streaming] on.  The result is the returned dict and the callback calls
    made on the way. *)
Definition process_native (rt : runtime) (message : str)
    (image_urls : option (list str)) (stream_callback : option callback)
    : response * list callback_call :=
  let agent_input := make_agent_input message image_urls in
  let stream_callback := default dummy_callback stream_callback in
  match run_streamed rt agent_input with
  | Raise (InputGuardrailTripwireTriggered _) => (guardrail_response, [])
  | Raise e => (error_response e, [])
  | Return result =>
    match stream_loop stream_callback (events result) initial_state with
    | (st, Some e) => (error_response e, calls st)
    | (st, None) =>
      match failure result with
      | Some e => (error_response e, calls st)
      | None =>
        ({| text := final_text (full_response st) (final_output result);
            tools := tool_calls st;
            token_usage := Some zero_usage |}, calls st)
      end
    end
  end.

(** [process_message].  The callback calls made inside the two MCP
    processors are theirs and are not recorded. *)
Definition process_message (rt : runtime) (message : str)
    (image_urls : option (list str)) (stream_callback : option callback)
    : response * list callback_call :=
  match detect_zapier_mcp_needed rt message with
  | Some (c :: key) =>
    let mcp_key := c :: key in
    match process_message_with_enhanced_multiturn_mcp rt mcp_key message image_urls with
    | Return r => (r, [])
    | Raise _ =>
      match process_message_with_zapier_mcp_streaming rt mcp_key message image_urls with
      | Return r => (r, [])
      | Raise _ => process_native rt message image_urls stream_callback
      end
    end
  | _ => process_native rt message image_urls stream_callback
  end.

(** ** Vocabulary for the statements about the streaming loop *)

(** Does [process_message] reach the native path?  It does when no MCP key
    is detected, and when both MCP processors raise. *)
Definition agent_invoked (rt : runtime) (message : str) (image_urls : option (list str))
    : bool :=
  match detect_zapier_mcp_needed rt message with
  | Some (c :: key) =>
    match process_message_with_enhanced_multiturn_mcp rt (c :: key) message image_urls,
          process_message_with_zapier_mcp_streaming rt (c :: key) message image_urls with
    | Raise _, Raise _ => true
    | _, _ => false
    end
  | _ => true
  end.

(** The record a ["tool call started"] event opens: a [tool_call_item] opens
    a record named after the item, a [file_search_call] item opens the
    [file_search] record; no other event opens one. *)
Definition opened_by (event : stream_event) : option tool_info :=
  match event with
  | run_item_stream_event item =>
    if bool_decide (item_type item = u "tool_call_item") then
      Some {| tool_name := default (u "unknown") (item_name item);
              tool_arguments := default EmptyDict (item_arguments item);
              type := tool_call_started; output := None |}
    else if bool_decide (item_type item = u "file_search_call") then
      Some {| tool_name := u "file_search"; tool_arguments := EmptyDict;
              type := file_search_call; output := None |}
    else None
  | _ => None
  end.

(** The output an ["output"] event supplies. *)
Definition output_of (event : stream_event) : option (option str) :=
  match event with
  | run_item_stream_event item =>
    if bool_decide (item_type item = u "tool_call_item") then None
    else if bool_decide (item_type item = u "file_search_call") then None
    else if bool_decide (item_type item = u "tool_call_output_item")
         then Some (item_output item)
    else None
  | _ => None
  end.

Definition is_tool_call_item (event : stream_event) : bool :=
  match event with
  | run_item_stream_event item => bool_decide (item_type item = u "tool_call_item")
  | _ => false
  end.

Definition is_file_search_call (event : stream_event) : bool :=
  match event with
  | run_item_stream_event item => bool_decide (item_type item = u "file_search_call")
  | _ => false
  end.

(** The last output supplied before the next record is opened. *)
Fixpoint matching_output (events : list stream_event) : option (option str) :=
  match events with
  | [] => None
  | event :: rest =>
    match opened_by event with
    | Some _ => None
    | None =>
      match matching_output rest with
      | Some o => Some o
      | None => output_of event
      end
    end
  end.

(** A record with its matching output, if one was supplied. *)
Definition settle (t : tool_info) (o : option (option str)) : tool_info :=
  match o with
  | Some o =>
    {| tool_name := tool_name t; tool_arguments := tool_arguments t;
       type := tool_call_completed; output := Some o |}
  | None => t
  end.

(** What an output does to a list of records: it settles the last one. *)
Definition close_last (tcs : list tool_info) (o : option (option str)) : list tool_info :=
  match o with
  | Some o => update_last tcs o
  | None => tcs
  end.

(** The tool-call list an event sequence calls for: one record per opening
    event, in order, completed exactly when an output was supplied for it. *)
Fixpoint expected_tool_calls (events : list stream_event) : list tool_info :=
  match events with
  | [] => []
  | event :: rest =>
    match opened_by event with
    | Some t => settle t (matching_output rest) :: expected_tool_calls rest
    | None => expected_tool_calls rest
    end
  end.

(** The records as they are opened, before any output. *)
Definition opened_tool_calls (events : list stream_event) : list tool_info :=
  omap opened_by events.

(** ** Sample runs *)

(** A runtime that detects no MCP key and whose [Runner.run_streamed] has
    the given outcome. *)
Definition plain_runtime (outcome : result run_result_streaming) : runtime :=
  {| detect_zapier_mcp_needed := fun _ => None;
     process_message_with_enhanced_multiturn_mcp :=
       fun _ _ _ => Raise (OtherException (u "RuntimeError") (u "unused"));
     process_message_with_zapier_mcp_streaming :=
       fun _ _ _ => Raise (OtherException (u "RuntimeError") (u "unused"));
     run_streamed := fun _ => outcome |}.

(** Two tool calls between text deltas; only the first gets an output. *)
Definition sample_events : list stream_event :=
  [ raw_response_event (TextDelta (u "Vou pesquisar. "));
    run_item_stream_event
      {| item_type := u "tool_call_item"; item_name := Some (u "web_search");
         item_arguments := Some (RawArguments (u "{'q': 'clima'}")); item_output := None |};
    run_item_stream_event
      {| item_type := u "tool_call_output_item"; item_name := None;
         item_arguments := None; item_output := Some (u "28 graus") |};
    raw_response_event (TextDelta (u "Faz 28 graus. "));
    run_item_stream_event
      {| item_type := u "tool_call_item"; item_name := None;
         item_arguments := None; item_output := None |};
    raw_response_event (TextDelta (u "Pronto.")) ].



(** An exception that matches none of the three categories of the outer
    handler. *)
Definition sample_error : exn :=
  OtherException (u "AuthenticationError")
                 (u "Incorrect API key provided: sk-proj-abc123 (request req_42)").

(** ** [extract_tool_calls_from_response] *)

(** The dict [{"tool_name": ..., "type": "inferred"}]. *)
Record inferred_tool := {
  inferred_tool_name : str;
  inferred_type : str
}.

Definition inferred (tool_name : str) : inferred_tool :=
  {| inferred_tool_name := tool_name; inferred_type := u "inferred" |}.

(** The loop over [ZAPIER_MCPS.items()]: one record for each integration
    one of whose keywords occurs in the lower-cased text. *)
Fixpoint mcp_indicators (table : list (str * ZapierMcps.mcp_config)) (text_lower : str)
    : list inferred_tool :=
  match table with
  | [] => []
  | (mcp_key, mcp_config) :: rest =>
    if ZapierMcps.any_keyword_in (ZapierMcps.keywords mcp_config) text_lower
    then inferred (u "mcp_" ++ mcp_key) :: mcp_indicators rest text_lower
    else mcp_indicators rest text_lower
  end.

Definition extract_tool_calls_from_response (response_text : str) : list inferred_tool :=
  (if str_in (u "web search") (lower response_text)
      || str_in (u "search") (lower response_text)
   then [inferred (u "web_search")] else [])
  ++ (if str_in (u "file search") (lower response_text)
         || str_in (u "document") (lower response_text)
      then [inferred (u "file_search")] else [])
  ++ (if str_in (u "image") (lower response_text)
         && (str_in (u "generat") (lower response_text)
             || str_in (u "creat") (lower response_text))
      then [inferred (u "image_generation")] else [])
  ++ mcp_indicators ZapierMcps.ZAPIER_MCPS (lower response_text).

(** Every name [extract_tool_calls_from_response] can report, in the order
    it reports them. *)
Definition inferable_names : list str :=
  [u "web_search"; u "file_search"; u "image_generation"]
  ++ map (fun entry => u "mcp_" ++ entry.1) ZapierMcps.ZAPIER_MCPS.

(** ** Vocabulary for the statements about the streamed text *)

(** The text a stream event adds to the response, if any. *)
Definition delta_of (event : stream_event) : option str :=
  match event with
  | raw_response_event (TextDelta delta) => if truthy delta then Some delta else None
  | raw_response_event (OtherData (Some delta)) =>
    if truthy delta then Some delta else None
  | _ => None
  end.

(** The deltas of the events, in order, put together. *)
Definition streamed_text (events : list stream_event) : str :=
  concat (omap delta_of events).

(** Each call carries the text so far: its full text is the text before the
    call followed by the delta of the call. *)
Fixpoint accumulates (so_far : str) (cs : list callback_call) : Prop :=
  match cs with
  | [] => True
  | c :: rest => full_text c = so_far ++ delta_text c /\ accumulates (full_text c) rest
  end.

(** The calls made end with the first call at which the callback raises, if
    it raises at all. *)
Definition stops_at_first_raise (cb : callback) (cs : list callback_call)
    (err : option exn) : Prop :=
  match err with
  | None => Forall (fun c => cb c = None) cs
  | Some e =>
    exists before c, cs = before ++ [c] /\ Forall (fun c' => cb c' = None) before /\
                     cb c = Some e
  end.

(** A callback that raises on the calls without delta text, that is, on the
    calls made for tool calls. *)
Definition raising_on_tool_calls : callback :=
  fun c => if truthy (delta_text c) then None
           else Some (OtherException (u "SlackApiError") (u "ratelimited")).

(** None of the three markers of the outer handler occurs in the text of
    the exception. *)
Definition uncategorised (e : exn) : bool :=
  negb (str_in (u "rate_limit") (lower (str_of_exn e)))
  && negb (str_in (u "timeout") (lower (str_of_exn e)))
  && negb (str_in (u "connection") (lower (str_of_exn e))).

End AgentProcessor.

(* ===================================================================== *)
(** * server/context_manager.py *)
(* ===================================================================== *)

Module ContextManager.

(** The running per-thread token totals the context manager keeps. *)
Record context_manager := {
  thread_totals : gmap str Z
}.

(** Modelled from the spec: [server/context_manager.py], which defines
    [ContextManager.check_context_limit], is not among the sources.  The spec
    has: [check_context_limit(thread_id, new_token_count, model) ->
    (is_at_limit, warning_text)] adds [new_token_count] to a running
    per-thread total and compares against a model-specific budget; it returns
    a non-empty warning string once the budget is met or exceeded.
    [budget model] is the model-specific budget and [limit_warning model
    total] the warning text, both left open by the spec. *)
Definition check_context_limit (budget : str -> Z) (limit_warning : str -> Z -> str)
    (cm : context_manager) (thread_id : str) (new_token_count : Z) (model : str)
    : context_manager * (bool * str) :=
  let total := (default 0 (thread_totals cm !! thread_id) + new_token_count)%Z in
  let cm' := {| thread_totals := <[thread_id := total]> (thread_totals cm) |} in
  if (budget model <=? total)%Z
  then (cm', (true, limit_warning model total))
  else (cm', (false, [])).

End ContextManager.

(* ===================================================================== *)
(** * server/message_processor.py *)
(* ===================================================================== *)

Module MessageProcessor.

Import AgentProcessor ContextManager.

(** ** [_split_long_message] *)

(** [parts] and [current_part]. *)
Record split_state := {
  parts : list str;
  current_part : str
}.

(** [while len(sentence) > max_length: parts.append(sentence[:max_length]);
    sentence = sentence[max_length:]].  The result is [parts] and what is
    left of [sentence]; [None] when the loop is still running after [fuel]
    rounds. *)
Fixpoint hard_split (fuel : nat) (max_length : nat) (sentence : str) (parts : list str)
    : option (list str * str) :=
  if max_length <? length sentence then
    match fuel with
    | O => None
    | S fuel' =>
      hard_split fuel' max_length (drop max_length sentence)
                 (parts ++ [take max_length sentence])
    end
  else Some (parts, sentence).

(** The body of [for sentence in sentences].  A round of the [while] loop
    shortens a non-empty [sentence] when [max_length] is positive, so
    [length sentence] rounds are enough; with [max_length = 0] the loop does
    not end. *)
Definition on_sentence (max_length : nat) (st : split_state) (sentence : str)
    : option split_state :=
  if max_length <? length (current_part st) + length sentence + 2 then
    if truthy (current_part st) then
      Some {| parts := parts st ++ [strip (current_part st)];
              current_part := sentence |}
    else
      match hard_split (length sentence) max_length sentence (parts st) with
      | Some (parts', sentence') =>
        Some {| parts := parts'; current_part := sentence' |}
      | None => None
      end
  else
    Some {| parts := parts st;
            current_part := current_part st ++ sentence ++ u ". " |}.

Fixpoint for_sentences (max_length : nat) (sentences : list str) (st : split_state)
    : option split_state :=
  match sentences with
  | [] => Some st
  | sentence :: rest =>
    match on_sentence max_length st sentence with
    | Some st' => for_sentences max_length rest st'
    | None => None
    end
  end.

(** The body of [for paragraph in paragraphs]. *)
Definition on_paragraph (max_length : nat) (st : split_state) (paragraph : str)
    : option split_state :=
  if max_length <? length (current_part st) + length paragraph + 2 then
    if truthy (current_part st) then
      Some {| parts := parts st ++ [strip (current_part st)];
              current_part := paragraph |}
    else
      for_sentences max_length (split (u ". ") paragraph) st
  else
    Some {| parts := parts st;
            current_part := current_part st ++ paragraph ++ [10%N; 10%N] |}.

Fixpoint for_paragraphs (max_length : nat) (paragraphs : list str) (st : split_state)
    : option split_state :=
  match paragraphs with
  | [] => Some st
  | paragraph :: rest =>
    match on_paragraph max_length st paragraph with
    | Some st' => for_paragraphs max_length rest st'
    | None => None
    end
  end.

(** [_split_long_message(message, max_length)]; [None] when the call does
    not return. *)
Definition _split_long_message (message : str) (max_length : nat) : option (list str) :=
  if length message <=? max_length then Some [message]
  else
    match for_paragraphs max_length (split [10%N; 10%N] message)
                         {| parts := []; current_part := [] |} with
    | Some st =>
      if truthy (strip (current_part st))
      then Some (parts st ++ [strip (current_part st)])
      else Some (parts st)
    | None => None
    end.

(** The paragraph separator, two line feeds. *)
Definition paragraph_break : str := [10%N; 10%N].

(** The last part, when it is not blank. *)
Definition last_part (current_part : str) : list str :=
  if truthy (strip current_part) then [strip current_part] else [].

(** Three paragraphs of 2000, 1200 and 1000 letters, with no white space
    but the two paragraph breaks. *)
Definition three_paragraph_message : str :=
  repeat 97%N 2000 ++ paragraph_break ++ repeat 98%N 1200 ++ paragraph_break
  ++ repeat 99%N 1000.

(** A short paragraph followed by one of 3001 characters. *)
Definition overlong_paragraph_message : str :=
  u "x" ++ paragraph_break ++ repeat 97%N 3001.

(** 3000 characters, three spaces, and one more character: no paragraph
    break and no sentence break. *)
Definition spaced_message : str :=
  repeat 97%N 3000 ++ u "   b".

(** 3001 characters, a sentence break, and one more character. *)
Definition glued_sentence_message : str :=
  repeat 97%N 3001 ++ u ". b".

(** ** Calls to Slack and the clock *)

(** [asyncio.sleep], [app_client.chat_update] on the placeholder message and
    [say] in the thread. *)
Inductive effect :=
| Sleep (seconds : Z)
| ChatUpdate (text : str)
| Say (text : str).

(** The attributes of [self] the error handler reads and writes:
    [_retry_count], which may be unset. *)
Record self_state := {
  _retry_count : option Z
}.

(** ** Token accounting and the final edit (the end of the [try] block) *)

Section Finalize.

(** [count_tokens] and [format_message_for_slack] are imported from modules
    outside this development; [slack c] is the exception the Slack call [c]
    raises, if it does. *)
Variable count_tokens : str -> Z.
Variable format_message_for_slack : str -> str.
Variable budget : str -> Z.
Variable limit_warning : str -> Z -> str.
Variable slack : effect -> option exn.

(** [thread_ts_for_reply or original_channel_id] *)
Definition thread_key_of (thread_ts_for_reply : option str) (original_channel_id : str) : str :=
  match thread_ts_for_reply with
  | Some (c :: ts) => c :: ts
  | _ => original_channel_id
  end.

(** [input_tokens + output_tokens] as read from the response, when the two
    calls of [count_tokens] return.  (Python evaluates both calls on every
    message, as the default arguments of [dict.get]; [exchange_tokens]
    below has the calls and what they raise.) *)
Definition total_tokens_of (response : response) (context_input : str) : Z :=
  let token_info :=
    default {| usage_input := None; usage_output := None; usage_total := None |}
            (token_usage response) in
  let input_tokens := default (count_tokens context_input) (usage_input token_info) in
  let output_tokens := default (count_tokens (text response)) (usage_output token_info) in
  (input_tokens + output_tokens)%Z.

(** From [token_info = ...] to the final [chat_update]/[say]: the new
    context manager, [text_with_footer], the Slack calls made, and whether
    the block raised. *)
Definition finalize (cm : context_manager) (response : response) (context_input : str)
    (thread_ts_for_reply : option str) (original_channel_id model_name : str)
    (header_prefix_final : str)
    : context_manager * str * list effect * result unit :=
  let text_resp := text response in
  let total_tokens := total_tokens_of response context_input in
  let thread_key := thread_key_of thread_ts_for_reply original_channel_id in
  let '(cm', (is_at_limit, memory_warning)) :=
    check_context_limit budget limit_warning cm thread_key total_tokens model_name in
  let text_with_footer := text_resp ++ memory_warning in
  let formatted_response := header_prefix_final ++ format_message_for_slack text_with_footer in
  match slack (ChatUpdate formatted_response) with
  | None => (cm', text_with_footer, [ChatUpdate formatted_response], Return ())
  | Some _ =>
    match slack (Say formatted_response) with
    | None =>
      (cm', text_with_footer, [ChatUpdate formatted_response; Say formatted_response], Return ())
    | Some e =>
      (cm', text_with_footer, [ChatUpdate formatted_response; Say formatted_response], Raise e)
    end
  end.

End Finalize.

(** [token_info = ...] to [total_tokens = ...] with the calls of
    [count_tokens] as Python makes them: [count_tokens(context_input)] and
    then [count_tokens(text_resp)] are evaluated before the look-ups in
    [token_info], whether or not the keys are there, and an exception of
    either leaves the block. *)
Definition exchange_tokens (count_tokens : str -> result Z) (response : response)
    (context_input : str) : result Z :=
  let text_resp := text response in
  let token_info :=
    default {| usage_input := None; usage_output := None; usage_total := None |}
            (token_usage response) in
  match count_tokens context_input with
  | Raise e => Raise e
  | Return counted_input =>
    let input_tokens := default counted_input (usage_input token_info) in
    match count_tokens text_resp with
    | Raise e => Raise e
    | Return counted_output =>
      let output_tokens := default counted_output (usage_output token_info) in
      Return (input_tokens + output_tokens)%Z
    end
  end.

(** ** The [except Exception as e] block of [process_message] *)

Section ProcessingError.

(** [get_user_friendly_error_message] and [should_retry_error] are imported
    from [server/utils.py], outside this development. *)
Variable get_user_friendly_error_message : exn -> str.
Variable should_retry_error : exn -> bool.
Variable slack : effect -> option exn.

(** [min(2 ** retry_count, 10)] *)
Definition backoff_time (retry_count : Z) : Z := Z.min (2 ^ retry_count) 10.

(** The last [try]: [message_ts] is bound whenever the handler runs, so the
    message goes out through [chat_update]; [say] is the fall-back. *)
Definition report_error (user_error_msg : str) : list effect * result unit :=
  match slack (ChatUpdate user_error_msg) with
  | None => ([ChatUpdate user_error_msg], Return ())
  | Some _ =>
    let fallback :=
      Say (u "Erro: Falha na comunicação. Se persistir entre em contato com: <@U046LTU4TT5>") in
    match slack fallback with
    | None => ([ChatUpdate user_error_msg; fallback], Return ())
    | Some e => ([ChatUpdate user_error_msg; fallback], Raise e)
    end
  end.

(** The outcome of [await self.process_and_respond_streaming(...)].
    [MessageProcessor] defines no method or attribute of that name: the call
    in the handler is the only place the sources mention it, and the class
    has no base class and no [__getattr__].  So the attribute lookup raises
    [AttributeError], before any argument is passed and without the pipeline
    being entered. *)
Definition process_and_respond_streaming : result unit :=
  Raise (OtherException (u "AttributeError")
           (u "'MessageProcessor' object has no attribute 'process_and_respond_streaming'")).

(** The handler [except Exception as e] of [process_message]: the attributes
    of [self] after it, the clock and Slack calls it makes, and whether it
    returns or raises. *)
Definition on_processing_error (self : self_state) (e : exn)
    : self_state * list effect * result unit :=
  let user_error_msg := get_user_friendly_error_message e in
  let retry_count := default 0%Z (_retry_count self) in
  let max_retries := 3%Z in
  if should_retry_error e && (retry_count <? max_retries)%Z then
    let backoff_time := backoff_time retry_count in
    match process_and_respond_streaming with
    | Return _ => ({| _retry_count := None |}, [Sleep backoff_time], Return ())
    | Raise retry_error =>
      let user_error_msg := get_user_friendly_error_message retry_error in
      let '(reported, r) := report_error user_error_msg in
      ({| _retry_count := None |}, Sleep backoff_time :: reported, r)
    end
  else
    let '(reported, r) := report_error user_error_msg in
    (self, reported, r).

End ProcessingError.

(** The seconds slept, in order. *)
Definition sleeps (effects : list effect) : list Z :=
  omap (fun c => match c with Sleep seconds => Some seconds | _ => None end) effects.

(** A provider error that is a timeout. *)
Definition timeout_error : exn :=
  OtherException (u "APITimeoutError") (u "Request timeout").

(** The handler run once for each exception of the list, in turn: the
    attributes at the end and the calls made, up to the first run that
    raises. *)
Fixpoint on_processing_errors (friendly : exn -> str) (should_retry : exn -> bool)
    (slack : effect -> option exn) (self : self_state) (errors : list exn)
    : self_state * list effect :=
  match errors with
  | [] => (self, [])
  | e :: rest =>
    match on_processing_error friendly should_retry slack self e with
    | (self', effects, Return _) =>
      let '(final, more) := on_processing_errors friendly should_retry slack self' rest in
      (final, effects ++ more)
    | (self', effects, Raise _) => (self', effects)
    end
  end.

(** Modelled from the spec: [should_retry_error] of [server/utils.py], which
    is not among the sources.  The spec has: errors are classified by
    error-message substring into rate limit, timeout, connection and generic,
    the first three being retryable. *)
Definition should_retry_error (e : exn) : bool :=
  str_in (u "rate_limit") (lower (str_of_exn e))
  || str_in (u "timeout") (lower (str_of_exn e))
  || str_in (u "connection") (lower (str_of_exn e)).

(** [except Exception as e] of [process_think_message]: the text passed to
    [say]. *)
Definition think_error_text (e : exn) : str :=
  u "Erro ao processar análise: " ++ str_of_exn e.

(** ** Posting the deep-analysis answer (the end of [process_think_message]) *)

(** [say] for each text in turn, up to the first call that raises. *)
Fixpoint say_all (slack : effect -> option exn) (texts : list str)
    : list effect * option exn :=
  match texts with
  | [] => ([], None)
  | text :: rest =>
    match slack (Say text) with
    | Some e => ([Say text], Some e)
    | None =>
      let '(effects, failure) := say_all slack rest in
      (Say text :: effects, failure)
    end
  end.

(** The handler [except Exception as e] of [process_think_message]: it says
    the error text, and an exception of that call leaves the method. *)
Definition think_failed (slack : effect -> option exn) (effects : list effect) (e : exn)
    : list effect * result unit :=
  match slack (Say (think_error_text e)) with
  | None => (effects ++ [Say (think_error_text e)], Return ())
  | Some e' => (effects ++ [Say (think_error_text e)], Raise e')
  end.

(** From [final_response = result.final_output] on: the answer is said
    whole when it has at most 3000 characters, and part by part otherwise;
    [parts[0]] on an empty list raises [IndexError].  [None] when the split
    does not return. *)
Definition post_think_response (slack : effect -> option exn) (final_response : str)
    : option (list effect * result unit) :=
  if 3000 <? length final_response then
    match _split_long_message final_response 3000 with
    | None => None
    | Some [] =>
      Some (think_failed slack []
              (OtherException (u "IndexError") (u "list index out of range")))
    | Some (first :: rest) =>
      match say_all slack (first :: rest) with
      | (effects, None) => Some (effects, Return ())
      | (effects, Some e) => Some (think_failed slack effects e)
      end
    end
  else
    match slack (Say final_response) with
    | None => Some ([Say final_response], Return ())
    | Some e => Some (think_failed slack [Say final_response] e)
    end.

(** ** Vocabulary for the statements about the splitting loops *)

(** The length of the text a list of pieces stands for, each piece counted
    with the two characters of the separator after it. *)
Definition weight (pieces : list str) : nat :=
  foldr (fun piece n => length piece + 2 + n) 0 pieces.

(** Progress of the loops after [consumed] characters: either a part has
    been put out, or everything consumed is still in [current_part], which
    is within the limit and is empty only when nothing has been consumed. *)
Definition progress (max_length : nat) (st : split_state) (consumed : nat) : Prop :=
  parts st <> [] \/
  (length (current_part st) <= max_length /\
   consumed <= length (current_part st) + 2 /\
   (current_part st = [] -> consumed = 0)).

(** Every part put out, and [current_part], is within the limit. *)
Definition within_limit (max_length : nat) (st : split_state) : Prop :=
  Forall (fun part => length part <= max_length) (parts st) /\
  length (current_part st) <= max_length.

End MessageProcessor.

(* ===================================================================== *)
(** * server/event_handlers.py *)
(* ===================================================================== *)

Module EventHandlers.

(** The fields of a Slack event the handlers read with [event.get]. *)
Record slack_event := {
  channel : option str;
  user : option str;
  text : str;
  ts : option str;
  thread_ts : option str
}.

(** An event as it reaches a handler, with what the handler learns from its
    surroundings: the answer of [_is_dm_channel] for the event's channel and
    whether [get_global_agent()] is set. *)
Record delivery := {
  event : slack_event;
  is_dm_channel : bool;
  agent_ready : bool
}.

(** [bot_user_id] of [server/config.py] *)
Definition bot_user_id : str := u "U057233T98A".

(** A value inside an f-string. *)
Definition fmt (o : option str) : str := default (u "None") o.

(** Truthiness of an optional string. *)
Definition is_set (o : option str) : bool :=
  match o with
  | Some (_ :: _) => true
  | _ => false
  end.

(** [x or y] on optional strings. *)
Definition or_else (x y : option str) : option str :=
  if is_set x then x else y.

(** [f"{channel_id}_{ts}_{user_id}"] *)
Definition message_key (ev : slack_event) : str :=
  fmt (channel ev) ++ u "_" ++ fmt (ts ev) ++ u "_" ++ fmt (user ev).

(** What a handler hands the event to. *)
Inductive dispatch :=
| process_message (text : str) (channel_id thread_ts_for_reply : option str)
                  (use_thread_history : bool) (user_id : option str)
| _handle_think_command (text : str) (channel_id user_id thread_ts : option str).

(** [re.sub(pattern, "", text)] for a pattern without metacharacters. *)
Definition remove_all (pattern text : str) : str := concat (split pattern text).

(** [for old_msg in old_messages: self.processed_messages.discard(old_msg)] *)
Definition discard_all (processed : gset str) (old_messages : list str) : gset str :=
  fold_left (fun s old_msg => s ∖ {[old_msg]}) old_messages processed.

Section Handlers.

(** [set_order s] is [list(s)]: the elements of the set in the order Python
    iterates over it, which the language leaves open. *)
Variable set_order : gset str -> list str.

(** The pruning step of [handle_app_mention_events]. *)
Definition prune (processed : gset str) : gset str :=
  if (10000 <? Z.of_nat (size processed))%Z
  then discard_all processed (take 1000 (set_order processed))
  else processed.

(** [handle_message_events]: the set of processed keys after the call, and
    the call made for the event, if any.  Extracting the images, audio files
    and documents of the event is taken not to raise. *)
Definition handle_message_events (processed : gset str) (d : delivery)
    : gset str * option dispatch :=
  let ev := event d in
  if negb (is_dm_channel d) then (processed, None)
  else if bool_decide (user ev = Some bot_user_id) then (processed, None)
  else
    let thread_ts_for_reply := ts ev in
    let message_key := message_key ev in
    if bool_decide (message_key ∈ processed) then (processed, None)
    else
      (processed ∪ {[message_key]},
       Some (process_message (text ev) (channel ev) thread_ts_for_reply false (user ev))).

(** [handle_app_mention_events] *)
Definition handle_app_mention_events (processed : gset str) (d : delivery)
    : gset str * option dispatch :=
  let ev := event d in
  if negb (is_set (channel ev) && is_set (user ev) && is_set (ts ev)) then (processed, None)
  else if negb (agent_ready d) then (processed, None)
  else if bool_decide (user ev = Some bot_user_id) then (processed, None)
  else if is_dm_channel d then (processed, None)
  else
    let message_key := message_key ev in
    if bool_decide (message_key ∈ processed) then (processed, None)
    else
      let processed := prune (processed ∪ {[message_key]}) in
      let thread_ts_for_reply := or_else (thread_ts ev) (ts ev) in
      let clean_text := strip (remove_all (u "<@" ++ bot_user_id ++ u ">") (text ev)) in
      if starts_with (u "+think") (strip clean_text)
      then (processed,
            Some (_handle_think_command clean_text (channel ev) (user ev) thread_ts_for_reply))
      else (processed,
            Some (process_message clean_text (channel ev) thread_ts_for_reply true (user ev))).

(** The two event subscriptions. *)
Inductive subscription :=
| message
| app_mention.

Definition handle (processed : gset str) (sd : subscription * delivery)
    : gset str * option dispatch :=
  match sd.1 with
  | message => handle_message_events processed sd.2
  | app_mention => handle_app_mention_events processed sd.2
  end.

(** A run of the handlers over the events delivered, one at a time: the set
    at the end and what each delivery was handed to. *)
Fixpoint run (processed : gset str) (deliveries : list (subscription * delivery))
    : gset str * list (option dispatch) :=
  match deliveries with
  | [] => (processed, [])
  | sd :: rest =>
    let '(processed', out) := handle processed sd in
    let '(final, outs) := run processed' rest in
    (final, out :: outs)
  end.

End Handlers.

(** ** Vocabulary for the statements about deduplication *)

(** The checks a delivery passes before its key is looked up. *)
Definition accepted (sd : subscription * delivery) : bool :=
  let ev := event sd.2 in
  match sd.1 with
  | message =>
    is_dm_channel sd.2 && negb (bool_decide (user ev = Some bot_user_id))
  | app_mention =>
    is_set (channel ev) && is_set (user ev) && is_set (ts ev)
    && agent_ready sd.2
    && negb (bool_decide (user ev = Some bot_user_id))
    && negb (is_dm_channel sd.2)
  end.

(** The processed set after an accepted delivery with a new key. *)
Definition inserted (set_order : gset str -> list str) (processed : gset str)
    (sd : subscription * delivery) : gset str :=
  match sd.1 with
  | message => processed ∪ {[ message_key (event sd.2) ]}
  | app_mention => prune set_order (processed ∪ {[ message_key (event sd.2) ]})
  end.

(** The keys of the deliveries of a run that were handed on. *)
Fixpoint processed_keys (deliveries : list (subscription * delivery))
    (outs : list (option dispatch)) : list str :=
  match deliveries, outs with
  | sd :: ds, Some _ :: os => message_key (event sd.2) :: processed_keys ds os
  | _ :: ds, None :: os => processed_keys ds os
  | _, _ => []
  end.

(** ** A run that prunes *)

(** A mention in channel C1. *)
Definition sample_mention : delivery :=
  {| event := {| channel := Some (u "C1"); user := Some (u "U1");
                 text := u "<@U057233T98A> bom dia"; ts := Some (u "2");
                 thread_ts := None |};
     is_dm_channel := false;
     agent_ready := true |}.

(** The key of an earlier mention in the same channel by the same user, its
    timestamp written with [i] digits [1]. *)
Definition older_key (i : nat) : str :=
  message_key {| channel := Some (u "C1"); user := Some (u "U1"); text := [];
                 ts := Some (repeat 49%N i); thread_ts := None |}.

(** A processed set of 10000 keys. *)
Definition full_set : gset str :=
  list_to_set (older_key <$> seq 0 (Z.to_nat 10000)).

(** An iteration order that starts with [k] when the set has it. *)
Definition order_with_first (k : str) (s : gset str) : list str :=
  if bool_decide (k ∈ s) then k :: elements (s ∖ {[ k ]}) else elements s.

(** [list(s)] lists the elements of the set [s], each once. *)
Definition enumerates (set_order : gset str -> list str) : Prop :=
  forall s, NoDup (set_order s) /\ forall k, k ∈ set_order s <-> k ∈ s.

(** A direct message from a user. *)
Definition sample_direct_message : delivery :=
  {| event := {| channel := Some (u "D1"); user := Some (u "U1");
                 text := u "bom dia"; ts := Some (u "3"); thread_ts := None |};
     is_dm_channel := true;
     agent_ready := true |}.

End EventHandlers.

(* ===================================================================== *)
(** * server/event_handlers.py: the [+think] command *)
(* ===================================================================== *)

Module ThinkCommand.

(** A message of a thread, as far as it is read: [msg.get("user")] and
    [msg.get("text")]. *)
Record thread_message := {
  message_user : option str;
  message_text : option str
}.

(** The calls the two handlers make: [say(text, thread_ts=...)], the [say]
    that sends the selection button, [client.chat_update] and
    [message_processor.process_think_message]. *)
Inductive call :=
| say (text : str) (thread_ts : option str)
| say_selection (thread_ts : option str)
| chat_update (channel ts text : str)
| process_think_message (message channel_id user_id thread_ts : str)
                        (improve_prompt : bool)
                        (thread_history : option (list thread_message)).

(** The two attributes the handlers keep on [self]; an attribute that is
    not set reads as [None], respectively as the empty list. *)
Record pending := {
  _pending_think_message : option str;
  _pending_think_history : list thread_message
}.

(** [self._pending_think_message = None; self._pending_think_history = []] *)
Definition cleared : pending :=
  {| _pending_think_message := None; _pending_think_history := [] |}.

Section Handlers.

(** Whether a call raises. *)
Variable slack : call -> option exn.

(** [client.conversations_replies(channel, ts, limit=20)], read with
    [response.get("messages", [])]. *)
Variable conversations_replies : option str -> option str -> result (list thread_message).

(** [is_channel_allowed] of [server/config.py]. *)
Variable is_channel_allowed : str -> str -> bool.

(** [_get_thread_history] *)
Definition _get_thread_history (channel_id thread_ts : option str) : list thread_message :=
  match conversations_replies channel_id thread_ts with
  | Return messages => messages
  | Raise _ => []
  end.

(** A call made last in a handler: the handler raises when the call does. *)
Definition last_call (st : pending) (before : list call) (c : call)
    : pending * list call * result unit :=
  (st, before ++ [c],
   match slack c with
   | None => Return ()
   | Some e => Raise e
   end).

(** [_handle_think_command]: the attributes after the call, the calls made
    and whether the handler raised. *)
Definition _handle_think_command (st : pending) (text : str)
    (channel_id user_id thread_ts : option str) : pending * list call * result unit :=
  let think_message := strip (drop 6 text) in
  if negb (truthy think_message) then
    let request := say (u "Por favor, forneça uma mensagem após o comando +think.")
                       thread_ts in
    match slack request with
    | None => (st, [request], Return ())
    | Some _ =>
      last_call st [request] (say (u "Erro ao processar comando +think.") thread_ts)
    end
  else
    let thread_history := _get_thread_history channel_id thread_ts in
    let st := {| _pending_think_message := Some think_message;
                 _pending_think_history := thread_history |} in
    match slack (say_selection thread_ts) with
    | None => (st, [say_selection thread_ts], Return ())
    | Some _ =>
      last_call st [say_selection thread_ts]
                (say (u "Erro ao processar comando +think.") thread_ts)
    end.

(** [handle_think_selection], from the security check on; [ack()] and the
    reading of the fields of [body] are taken not to raise. *)
Definition handle_think_selection (st : pending) (selected_value : str)
    (channel_id user_id message_ts : str) : pending * list call * result unit :=
  let failed := chat_update channel_id message_ts
                  (u "❌ Erro ao processar seleção. Tente novamente.") in
  if negb (is_channel_allowed channel_id user_id) then (st, [], Return ())
  else
    let original_message := _pending_think_message st in
    let thread_history := _pending_think_history st in
    if negb (truthy (default [] original_message)) then
      let expired := chat_update channel_id message_ts
                       (u "❌ Sessão expirada. Tente novamente com +think.") in
      match slack expired with
      | None => (st, [expired], Return ())
      | Some _ => last_call st [expired] failed
      end
    else
      let improve_prompt := bool_decide (selected_value = u "value-0") in
      let starting :=
        chat_update channel_id message_ts
          (if improve_prompt then u "✨ Reformulando prompt..."
           else u "🧠 Analisando profundamente...") in
      match slack starting with
      | Some _ => last_call st [starting] failed
      | None =>
        let processing :=
          process_think_message (default [] original_message) channel_id user_id
            message_ts improve_prompt
            (if improve_prompt then Some thread_history else None) in
        match slack processing with
        | Some _ => last_call st [starting; processing] failed
        | None => (cleared, [starting; processing], Return ())
        end
      end.

End Handlers.

End ThinkCommand.

(* ===================================================================== *)
(** * tools/document_processor.py *)
(* ===================================================================== *)

Module DocumentProcessor.

(** [s.endswith(suffix)] *)
Definition ends_with (suffix s : str) : bool := starts_with (rev suffix) (rev s).

(** The keys of [self.supported_types]. *)
Definition supported_types : list str :=
  [ u "application/pdf"; u "text/csv"; u "application/vnd.ms-excel";
    u "application/vnd.openxmlformats-officedocument.spreadsheetml.sheet";
    u "application/vnd.google-apps.spreadsheet";
    u "application/vnd.google-apps.document";
    u "application/vnd.openxmlformats-officedocument.wordprocessingml.document";
    u "text/plain" ].

(** [self.file_search_types] *)
Definition file_search_types : list str :=
  [ u ".pdf"; u ".docx"; u ".doc"; u ".txt"; u ".csv"; u ".xls"; u ".xlsx" ].

(** [supported_extensions] of [_is_supported_document] *)
Definition supported_extensions : list str :=
  [ u ".pdf"; u ".csv"; u ".xls"; u ".xlsx"; u ".docx"; u ".doc"; u ".txt" ].

(** [_get_file_extension] *)
Definition _get_file_extension (filename : str) : str :=
  if str_in (u ".") filename then u "." ++ List.last (split (u ".") filename) []
  else u ".txt".

(** [_is_supported_document] *)
Definition _is_supported_document (mimetype filename : str) : bool :=
  if bool_decide (mimetype ∈ supported_types) then true
  else
    let filename_lower := lower filename in
    let file_extension := lower (_get_file_extension filename) in
    if bool_decide (file_extension ∈ supported_extensions) then true
    else existsb (fun ext => ends_with ext filename_lower) supported_extensions.

(** [_should_use_file_search] *)
Definition _should_use_file_search (filename : str) : bool :=
  let ext := lower (_get_file_extension filename) in
  bool_decide (ext ∈ file_search_types).

(** A document as [extract_document_files] lists it. *)
Record document_file := {
  doc_name : str;
  doc_url : str;
  doc_mimetype : str;
  doc_size : Z;
  doc_id : option str
}.

(** An entry of the list [upload_to_openai] returns. *)
Record uploaded_file := {
  uploaded_name : str;
  openai_file_id : str;
  uploaded_size : Z;
  uploaded_mimetype : str
}.

Section Upload.

(** [_download_slack_file(url, slack_token)]: the bytes read, or [None];
    it catches every exception. *)
Variable _download_slack_file : str -> option (list Byte.byte).

(** [_upload_to_openai_files(file_content, filename)]: the [id] of the file
    created, or [None]; it catches every exception. *)
Variable _upload_to_openai_files : list Byte.byte -> str -> option str.

(** The body of the loop of [upload_to_openai]: what one document adds to
    [uploaded_files].  The entries have the keys [extract_document_files]
    gives them, and the two calls catch their exceptions, so the [except]
    branch of the loop is not reached. *)
Definition upload_one (uploaded_files : list uploaded_file) (doc_file : document_file)
    : list uploaded_file :=
  match _download_slack_file (doc_url doc_file) with
  | Some (b :: content) =>
    match _upload_to_openai_files (b :: content) (doc_name doc_file) with
    | Some id =>
      uploaded_files ++ [ {| uploaded_name := doc_name doc_file;
                             openai_file_id := id;
                             uploaded_size := doc_size doc_file;
                             uploaded_mimetype := doc_mimetype doc_file |} ]
    | None => uploaded_files
    end
  | _ => uploaded_files
  end.

(** [upload_to_openai] *)
Definition upload_to_openai (document_files : list document_file) : list uploaded_file :=
  fold_left upload_one document_files [].

(** A document whose download gives content and whose upload gives a file. *)
Definition uploads (doc_file : document_file) : bool :=
  match _download_slack_file (doc_url doc_file) with
  | Some (b :: content) =>
    bool_decide (is_Some (_upload_to_openai_files (b :: content) (doc_name doc_file)))
  | _ => false
  end.

End Upload.

(** [format_upload_summary] *)
Definition format_upload_summary (uploaded_files : list uploaded_file) : str :=
  match uploaded_files with
  | [] => u "❌ Nenhum documento foi processado com sucesso."
  | [f] => u "✅ Processado: " ++ uploaded_name f
  | _ => u "✅ Processados: " ++ join (u ", ") (map uploaded_name uploaded_files)
  end.

(** A download that gives content for one address only, an empty file for
    another, and an upload that always succeeds. *)
Definition sample_download (url : str) : option (list Byte.byte) :=
  if bool_decide (url = u "https://files.slack.com/a.pdf") then Some [Byte.x25; Byte.x50]
  else if bool_decide (url = u "https://files.slack.com/vazio.txt") then Some []
  else None.

Definition sample_upload (content : list Byte.byte) (filename : str) : option str :=
  Some (u "file-" ++ filename).

Definition sample_documents : list document_file :=
  [ {| doc_name := u "vazio.txt"; doc_url := u "https://files.slack.com/vazio.txt";
       doc_mimetype := u "text/plain"; doc_size := 0; doc_id := Some (u "F1") |};
    {| doc_name := u "a.pdf"; doc_url := u "https://files.slack.com/a.pdf";
       doc_mimetype := u "application/pdf"; doc_size := 2; doc_id := Some (u "F2") |};
    {| doc_name := u "b.csv"; doc_url := u "https://files.slack.com/b.csv";
       doc_mimetype := u "text/csv"; doc_size := 9; doc_id := Some (u "F3") |} ].

End DocumentProcessor.

(* ===================================================================== *)
(** * The guardrail tripwire *)
(* ===================================================================== *)

Section GuardrailFacts.

Import Guardrails.

(** The literal is the binary64 value nearest to 7/10: it lies just below,
    and its successor lies above. *)
Lemma threshold_brackets_seven_tenths :
  (6305039478318694 * 10 <= 7 * 2 ^ 53 < 6305039478318695 * 10)%Z.
Proof. split; vm_compute; congruence. Qed.

(** Comparing in the other direction gives the opposite answer. *)
Lemma SFcompare_swap (x y : spec_float) :
  SFcompare y x = option_map CompOpp (SFcompare x y).
Proof.
  destruct x as [sx|sx| |sx mx ex], y as [sy|sy| |sy my ey]; simpl;
    try reflexivity; try (destruct sx; reflexivity); try (destruct sy; reflexivity);
    try (destruct sx, sy; reflexivity).
  rewrite (Z.compare_antisym ey ex).
  change (PosDef.Pos.compare_cont Eq mx my) with (Pos.compare mx my).
  change (PosDef.Pos.compare_cont Eq my mx) with (Pos.compare my mx).
  rewrite (Pos.compare_antisym my mx).
  destruct sx, sy; simpl; try reflexivity;
    destruct (ey ?= ex)%Z; simpl; try reflexivity;
    destruct (my ?= mx)%positive; reflexivity.
Qed.

(** [x <= y] excludes [x > y], also on NaN and the infinities. *)
Lemma float_le_not_gt (x y : spec_float) :
  float_le x y = true -> float_gt x y = false.
Proof.
  unfold float_le, float_gt, SFleb, SFltb. rewrite (SFcompare_swap x y).
  destruct (SFcompare x y) as [[]|]; simpl; congruence.
Qed.

(** C2.  [professional_content_guardrail] hands the classifier the prompt
    with the text of the input and returns the classifier's verdict as
    [output_info]; its tripwire is set exactly when that verdict has
    [is_inappropriate] and a [confidence_score] strictly greater than 0.7;
    whenever the score is at most 0.7 the tripwire is not set, whatever
    [is_inappropriate] says. *)
Theorem tripwire_iff_flag_and_high_confidence
    (run_guardrail_agent : str -> ProfessionalContentOutput)
    (input : guardrail_input) :
  let verdict :=
    run_guardrail_agent
      (u "Analise esta mensagem para ambiente profissional: " ++ input_text input) in
  let out := professional_content_guardrail run_guardrail_agent input in
  output_info out = verdict
  /\ (tripwire_triggered out = true <->
      is_inappropriate verdict = true /\
      float_gt (confidence_score verdict) threshold = true)
  /\ (float_le (confidence_score verdict) threshold = true ->
      tripwire_triggered out = false).
Proof.
  cbv zeta. unfold professional_content_guardrail. cbn [output_info tripwire_triggered].
  split; [reflexivity|]. split.
  - rewrite andb_true_iff. reflexivity.
  - intros Hle. rewrite (float_le_not_gt _ _ Hle). apply andb_false_r.
Qed.

(** A classifier that flags the message ["oi"] with confidence 0.9 (the
    binary64 value 0x1.ccccccccccccdp-1) and every other message with
    confidence exactly 0.7: the first trips the guardrail, the second does
    not. *)
Lemma tripwire_iff_flag_and_high_confidence_witness :
  let classifier := fun prompt : str =>
    {| is_inappropriate := true; category := u "off_topic";
       reasoning := u "receita de bolo";
       confidence_score :=
         if bool_decide (prompt = u "Analise esta mensagem para ambiente profissional: oi")
         then S754_finite false 8106479329266893 (-53) else threshold |} in
  tripwire_triggered (professional_content_guardrail classifier (InputStr (u "oi"))) = true
  /\ float_le (confidence_score (classifier
                 (u "Analise esta mensagem para ambiente profissional: bom dia")))
              threshold = true
  /\ tripwire_triggered
       (professional_content_guardrail classifier (InputStr (u "bom dia"))) = false.
Proof.
  cbv zeta.
  set (classifier := fun prompt : str =>
    {| is_inappropriate := true; category := u "off_topic";
       reasoning := u "receita de bolo";
       confidence_score :=
         if bool_decide (prompt = u "Analise esta mensagem para ambiente profissional: oi")
         then S754_finite false 8106479329266893 (-53) else threshold |}).
  destruct (tripwire_iff_flag_and_high_confidence classifier (InputStr (u "oi")))
    as [_ [Htrip _]].
  destruct (tripwire_iff_flag_and_high_confidence classifier (InputStr (u "bom dia")))
    as [_ [_ Hlow]].
  split; [apply Htrip; split; vm_compute; reflexivity|].
  split; [vm_compute; reflexivity|].
  apply Hlow. vm_compute. reflexivity.
Defined.

End GuardrailFacts.

(* ===================================================================== *)
(** * Strings: occurrences *)
(* ===================================================================== *)

Section StringFacts.

Lemma starts_with_spec (p s : str) :
  starts_with p s = true <-> exists post, s = p ++ post.
Proof.
  revert s. induction p as [|a p IH]; intros s; simpl.
  - split; [intros _; exists s; reflexivity | reflexivity].
  - destruct s as [|b s]; simpl.
    + split; [discriminate | intros [post H]; discriminate].
    + rewrite andb_true_iff, N.eqb_eq, IH. split.
      * intros [-> [post ->]]. exists post. reflexivity.
      * intros [post H]. injection H as -> ->. split; [reflexivity | eauto].
Qed.

(** [needle in hay] holds exactly when [hay] is [needle] with something
    before and after it. *)
Lemma str_in_spec (needle hay : str) :
  str_in needle hay = true <-> exists pre post, hay = pre ++ needle ++ post.
Proof.
  induction hay as [|c hay IH]; simpl.
  - rewrite orb_false_r, starts_with_spec. split.
    + intros [post H]. exists [], post. exact H.
    + intros [pre [post H]]. symmetry in H.
      apply app_eq_nil in H as [-> H]. exists post. symmetry. exact H.
  - rewrite orb_true_iff, starts_with_spec, IH. split.
    + intros [[post H] | [pre [post H]]].
      * exists [], post. exact H.
      * exists (c :: pre), post. rewrite H. reflexivity.
    + intros [[|c' pre] [post H]].
      * left. exists post. exact H.
      * right. injection H as _ H. eauto.
Qed.

Lemma str_in_app (needle pre s post : str) :
  str_in needle s = true -> str_in needle (pre ++ s ++ post) = true.
Proof.
  rewrite !str_in_spec. intros [a [b ->]].
  exists (pre ++ a), (b ++ post). rewrite <- !app_assoc. reflexivity.
Qed.

Lemma str_in_trans (a b c : str) :
  str_in a b = true -> str_in b c = true -> str_in a c = true.
Proof.
  intros Hab. rewrite (str_in_spec b c). intros [pre [post ->]].
  apply str_in_app. exact Hab.
Qed.

Lemma lower_app (s t : str) : lower (s ++ t) = lower s ++ lower t.
Proof. unfold lower. apply flat_map_app. Qed.

(** Lower-casing keeps occurrences: if [needle] occurs in [hay], then its
    lower-case form occurs in the lower-cased [hay]. *)
Lemma str_in_lower (needle hay : str) :
  str_in needle hay = true -> str_in (lower needle) (lower hay) = true.
Proof.
  rewrite !str_in_spec. intros [pre [post ->]].
  exists (lower pre), (lower post). rewrite !lower_app. reflexivity.
Qed.

End StringFacts.

(* ===================================================================== *)
(** * Keyword routing *)
(* ===================================================================== *)

Section RoutingFacts.

Import ZapierMcps.

Lemma any_keyword_in_true (kws : list str) (ml : str) :
  any_keyword_in kws ml = true <-> exists kw, kw ∈ kws /\ str_in kw ml = true.
Proof.
  induction kws as [|kw kws IH]; simpl.
  - split; [discriminate | intros [kw [H _]]; inversion H].
  - destruct (str_in kw ml) eqn:E.
    + split; [intros _; exists kw; split; [left | exact E] | reflexivity].
    + rewrite IH. split.
      * intros [kw' [Hin H]]. exists kw'. split; [right; exact Hin | exact H].
      * intros [kw' [Hin H]]. inversion Hin; subst; [congruence | eauto].
Qed.

(** The outer loop returns the first name of [order] that matches, and
    [None] when none does; it raises only on a name the table lacks. *)
Lemma first_match_spec (table : list (str * mcp_config)) (order : list str) (ml : str) :
  (forall name, name ∈ order -> is_Some (dict_get table name)) ->
  match first_match table order ml with
  | Return (Some (name, cfg)) =>
    dict_get table name = Some cfg /\
    any_keyword_in (keywords cfg) ml = true /\
    exists before after, order = before ++ name :: after /\
      forall name', name' ∈ before -> ~ matches table ml name'
  | Return None => forall name, name ∈ order -> ~ matches table ml name
  | Raise _ => False
  end.
Proof.
  induction order as [|n order IH]; intros Hall; simpl.
  - intros name H. inversion H.
  - destruct (Hall n) as [cfg Hcfg]; [left|]. rewrite Hcfg.
    destruct (any_keyword_in (keywords cfg) ml) eqn:E.
    + split; [exact Hcfg|]. split; [exact E|].
      exists [], order. split; [reflexivity|]. intros name' H. inversion H.
    + assert (Hn : ~ matches table ml n).
      { intros [cfg' [H1 H2]]. congruence. }
      specialize (IH (fun name H => Hall name (list_elem_of_further _ _ _ H))).
      destruct (first_match table order ml) as [[[name c]|]|e]; [| |exact IH].
      * destruct IH as [H1 [H2 [before [after [-> H3]]]]].
        split; [exact H1|]. split; [exact H2|].
        exists (n :: before), after. split; [reflexivity|].
        intros name' H. inversion H; subst; [exact Hn | apply H3; assumption].
      * intros name H. inversion H; subst; [exact Hn | apply IH; assumption].
Qed.

Lemma priority_order_in_table (name : str) :
  name ∈ PRIORITY_ORDER -> is_Some (dict_get ZAPIER_MCPS name).
Proof.
  unfold PRIORITY_ORDER. rewrite !elem_of_cons, elem_of_nil.
  intros H. repeat (destruct H as [-> | H]; [vm_compute; eauto|]). destruct H.
Qed.

End RoutingFacts.

Section RoutingTheorems.

Import ZapierMcps.

Lemma calendar_in_agenda_message : str_in (u "calendar") agenda_message = true.
Proof. reflexivity. Qed.

Lemma agenda_message_is_lower : lower agenda_message = agenda_message.
Proof. reflexivity. Qed.

(** With no keyword of an earlier integration in the lower-cased message and
    [calendar] in it, the loop stops at Google Calendar. *)
Lemma first_match_calendar (ml : str) :
  (forall kw, kw ∈ keywords_before_calendar -> str_in kw ml = false) ->
  str_in (u "calendar") ml = true ->
  exists cfg, dict_get ZAPIER_MCPS (u "mcpGoogleCalendar") = Some cfg /\
    first_match ZAPIER_MCPS PRIORITY_ORDER ml = Return (Some (u "mcpGoogleCalendar", cfg)).
Proof.
  intros Hnone Hcal.
  assert (H1 := Hnone (u "google drive")). assert (H2 := Hnone (u "drive")).
  assert (H3 := Hnone (u "gdrive")). assert (H4 := Hnone (u "everhour")).
  assert (H5 := Hnone (u "gmail")). assert (H6 := Hnone (u "asana")).
  clear Hnone. unfold keywords_before_calendar in *.
  rewrite !elem_of_cons in H1, H2, H3, H4, H5, H6.
  specialize (H1 ltac:(tauto)). specialize (H2 ltac:(tauto)).
  specialize (H3 ltac:(tauto)). specialize (H4 ltac:(tauto)).
  specialize (H5 ltac:(tauto)). specialize (H6 ltac:(tauto)).
  eexists. split; [reflexivity|].
  cbv -[str_in] in H1, H2, H3, H4, H5, H6, Hcal |- *.
  rewrite H1, H2, H3, H4, H5, H6, Hcal. reflexivity.
Qed.

(** C8, as amended.  [get_mcp_by_keywords] never raises; it returns the
    first integration of [PRIORITY_ORDER] one of whose keywords occurs in
    the lower-cased message, and [None] when there is none, so that the
    answer depends on the message only up to the case of its letters.  A
    message containing "preciso ver minha agenda no calendar hoje" is routed
    to Google Calendar provided no keyword of the four integrations before
    it in the order occurs in the lower-cased message; the sentence alone is
    such a message. *)
Theorem get_mcp_by_keywords_first_in_priority_order (message : str) :
  match get_mcp_by_keywords message with
  | Return (Some (name, cfg)) =>
    dict_get ZAPIER_MCPS name = Some cfg /\
    (exists kw, kw ∈ keywords cfg /\ str_in kw (lower message) = true) /\
    exists before after, PRIORITY_ORDER = before ++ name :: after /\
      forall name', name' ∈ before -> ~ matches ZAPIER_MCPS (lower message) name'
  | Return None =>
    forall name, name ∈ PRIORITY_ORDER -> ~ matches ZAPIER_MCPS (lower message) name
  | Raise _ => False
  end
  /\ (forall message', lower message' = lower message ->
        get_mcp_by_keywords message' = get_mcp_by_keywords message)
  /\ (str_in agenda_message message = true ->
      (forall kw, kw ∈ keywords_before_calendar -> str_in kw (lower message) = false) ->
      exists cfg, dict_get ZAPIER_MCPS (u "mcpGoogleCalendar") = Some cfg /\
        get_mcp_by_keywords message = Return (Some (u "mcpGoogleCalendar", cfg)))
  /\ (exists cfg,
        get_mcp_by_keywords agenda_message = Return (Some (u "mcpGoogleCalendar", cfg))).
Proof.
  split; [|split; [|split]].
  - unfold get_mcp_by_keywords.
    pose proof (first_match_spec ZAPIER_MCPS PRIORITY_ORDER (lower message)
                  priority_order_in_table) as H.
    destruct (first_match ZAPIER_MCPS PRIORITY_ORDER (lower message))
      as [[[name cfg]|]|e]; [|exact H|exact H].
    destruct H as [H1 [H2 H3]]. split; [exact H1|]. split; [|exact H3].
    apply any_keyword_in_true. exact H2.
  - intros message' H. unfold get_mcp_by_keywords. rewrite H. reflexivity.
  - intros Hin Hnone. unfold get_mcp_by_keywords.
    apply first_match_calendar; [exact Hnone|].
    apply (str_in_trans _ agenda_message); [exact calendar_in_agenda_message|].
    rewrite <- agenda_message_is_lower. apply str_in_lower. exact Hin.
  - eexists. vm_compute. reflexivity.
Qed.

(** A message around the sentence, in upper case, with no earlier keyword. *)
Lemma get_mcp_by_keywords_first_in_priority_order_witness :
  let message := u "Bom dia! preciso ver minha agenda no calendar hoje, obrigado" in
  str_in agenda_message message = true /\
  (forall kw, kw ∈ keywords_before_calendar -> str_in kw (lower message) = false) /\
  exists cfg, dict_get ZAPIER_MCPS (u "mcpGoogleCalendar") = Some cfg /\
    get_mcp_by_keywords message = Return (Some (u "mcpGoogleCalendar", cfg)).
Proof.
  assert (Hin : str_in agenda_message
                  (u "Bom dia! preciso ver minha agenda no calendar hoje, obrigado") = true)
    by reflexivity.
  assert (Hnone : forall kw, kw ∈ keywords_before_calendar ->
            str_in kw (lower (u "Bom dia! preciso ver minha agenda no calendar hoje, obrigado"))
            = false).
  { intros kw. unfold keywords_before_calendar. rewrite !elem_of_cons, elem_of_nil.
    intros H. repeat (destruct H as [-> | H]; [reflexivity|]). destruct H. }
  split; [exact Hin|]. split; [exact Hnone|].
  exact (proj1 (proj2 (proj2 (get_mcp_by_keywords_first_in_priority_order
           (u "Bom dia! preciso ver minha agenda no calendar hoje, obrigado")))) Hin Hnone).
Defined.

(** C8, as stated, fails: a message that contains the sentence and also
    names Google Drive is routed to Google Drive, which comes first in
    [PRIORITY_ORDER]. *)
Lemma agenda_message_with_drive_goes_to_drive :
  ~ (forall message, str_in agenda_message message = true ->
       exists cfg, get_mcp_by_keywords message = Return (Some (u "mcpGoogleCalendar", cfg))).
Proof.
  intros H.
  destruct (H (u "preciso ver minha agenda no calendar hoje e o link do drive")) as [cfg Hc].
  - reflexivity.
  - vm_compute in Hc. discriminate Hc.
Qed.

End RoutingTheorems.

(* ===================================================================== *)
(** * The streaming loop of [agent/processor.py] *)
(* ===================================================================== *)

Section StreamingFacts.

Import AgentProcessor.

Lemma update_last_snoc (tcs : list tool_info) (t : tool_info) (o : option str) :
  update_last (tcs ++ [t]) o = tcs ++ [settle t (Some o)].
Proof.
  induction tcs as [|t' tcs IH]; [reflexivity|].
  simpl app. simpl update_last. rewrite IH.
  destruct (tcs ++ [t]) eqn:E; [|reflexivity].
  destruct tcs; discriminate E.
Qed.

Lemma update_last_twice (tcs : list tool_info) (a b : option str) :
  update_last (update_last tcs a) b = update_last tcs b.
Proof.
  induction tcs as [|t tcs IH]; [reflexivity|].
  destruct tcs as [|t' tcs]; [reflexivity|].
  change (update_last (t :: t' :: tcs) a) with (t :: update_last (t' :: tcs) a).
  change (update_last (t :: t' :: tcs) b) with (t :: update_last (t' :: tcs) b).
  rewrite <- IH.
  destruct (update_last (t' :: tcs) a) eqn:E; [|reflexivity].
  destruct tcs; discriminate E.
Qed.

Lemma close_last_snoc (tcs : list tool_info) (t : tool_info) (o : option (option str)) :
  close_last (tcs ++ [t]) o = tcs ++ [settle t o].
Proof. destruct o as [o|]; [apply update_last_snoc | reflexivity]. Qed.

Ltac case_item item :=
  destruct (bool_decide (item_type item = u "tool_call_item"));
  [|destruct (bool_decide (item_type item = u "file_search_call"));
    [|destruct (bool_decide (item_type item = u "tool_call_output_item"))]].

(** With a callback that does not raise, the loop runs through all events;
    it leaves the records it started with, the last of them settled by any
    output that comes before the next opening, followed by the records the
    events call for. *)
Lemma stream_loop_tool_calls (cb : callback) (evs : list stream_event) (st : stream_state) :
  (forall c, cb c = None) ->
  (stream_loop cb evs st).2 = None /\
  tool_calls (stream_loop cb evs st).1
  = close_last (tool_calls st) (matching_output evs) ++ expected_tool_calls evs.
Proof.
  intros Hcb. revert st. induction evs as [|ev evs IH]; intros st.
  - simpl. rewrite app_nil_r. split; reflexivity.
  - simpl stream_loop. simpl matching_output. simpl expected_tool_calls.
    destruct ev as [[delta|[delta|]]|item|]; simpl on_event; simpl opened_by;
      simpl output_of.
    + destruct (truthy delta); [unfold on_delta, invoke; rewrite Hcb|];
        match goal with
        | |- context [stream_loop cb evs ?s] =>
          destruct (IH s) as [H1 H2]; rewrite H1, H2; simpl;
          destruct (matching_output evs); split; reflexivity
        end.
    + destruct (truthy delta); [unfold on_delta, invoke; rewrite Hcb|];
        match goal with
        | |- context [stream_loop cb evs ?s] =>
          destruct (IH s) as [H1 H2]; rewrite H1, H2; simpl;
          destruct (matching_output evs); split; reflexivity
        end.
    + destruct (IH st) as [H1 H2]; rewrite H1, H2.
      destruct (matching_output evs); split; reflexivity.
    + case_item item.
      * unfold on_tool, invoke. rewrite Hcb.
        match goal with
        | |- context [stream_loop cb evs ?s] => destruct (IH s) as [H1 H2]
        end.
        rewrite H1, H2. simpl tool_calls. rewrite close_last_snoc.
        split; [reflexivity|]. rewrite <- app_assoc. reflexivity.
      * unfold on_tool, invoke. rewrite Hcb.
        match goal with
        | |- context [stream_loop cb evs ?s] => destruct (IH s) as [H1 H2]
        end.
        rewrite H1, H2. simpl tool_calls. rewrite close_last_snoc.
        split; [reflexivity|]. rewrite <- app_assoc. reflexivity.
      * destruct (tool_calls st) as [|t tcs] eqn:Etc.
        -- destruct (IH st) as [H1 H2]. rewrite H1, H2, Etc.
           split; [reflexivity|].
           destruct (matching_output evs); reflexivity.
        -- match goal with
           | |- context [stream_loop cb evs ?s] => destruct (IH s) as [H1 H2]
           end.
           rewrite H1, H2. cbn [tool_calls]. split; [reflexivity|].
           destruct (matching_output evs) as [o|]; cbn [close_last];
             [rewrite update_last_twice|]; reflexivity.
      * destruct (IH st) as [H1 H2]. rewrite H1, H2.
        destruct (matching_output evs); split; reflexivity.
    + destruct (IH st) as [H1 H2]. rewrite H1, H2.
      destruct (matching_output evs); split; reflexivity.
Qed.

End StreamingFacts.

Section ToolCallTheorems.

Import AgentProcessor.

Lemma matching_output_none (evs : list stream_event) :
  (forall ev, ev ∈ evs -> output_of ev = None) -> matching_output evs = None.
Proof.
  induction evs as [|ev evs IH]; intros H; [reflexivity|].
  simpl. destruct (opened_by ev); [reflexivity|].
  rewrite IH; [apply H; left | intros ev' Hin; apply H; right; exact Hin].
Qed.

(** The records called for are the records opened, each one either as it
    was opened or settled by an output. *)
Lemma expected_vs_opened (evs : list stream_event) :
  Forall2 (fun t t0 => t = t0 \/ exists o, t = settle t0 (Some o))
          (expected_tool_calls evs) (opened_tool_calls evs).
Proof.
  unfold opened_tool_calls.
  induction evs as [|ev evs IH]; simpl; [constructor|].
  destruct (opened_by ev) as [t0|]; [|exact IH].
  constructor; [|exact IH].
  destruct (matching_output evs) as [o|]; [right; exists o|left]; reflexivity.
Qed.

Lemma expected_without_outputs (evs : list stream_event) :
  (forall ev, ev ∈ evs -> output_of ev = None) ->
  expected_tool_calls evs = opened_tool_calls evs.
Proof.
  unfold opened_tool_calls.
  induction evs as [|ev evs IH]; intros H; simpl; [reflexivity|].
  assert (Hrest : forall ev', ev' ∈ evs -> output_of ev' = None)
    by (intros ev' Hin; apply H; right; exact Hin).
  rewrite (IH Hrest). destruct (opened_by ev); [|reflexivity].
  rewrite (matching_output_none evs Hrest). reflexivity.
Qed.

Lemma opened_count (evs : list stream_event) :
  length (opened_tool_calls evs)
  = length (List.filter is_tool_call_item evs)
    + length (List.filter is_file_search_call evs).
Proof.
  unfold opened_tool_calls.
  induction evs as [|ev evs IH]; [reflexivity|].
  change (omap opened_by (ev :: evs))
    with (match opened_by ev with
          | Some t => t :: omap opened_by evs
          | None => omap opened_by evs
          end).
  simpl List.filter.
  destruct ev as [d|item|]; cbn [opened_by is_tool_call_item is_file_search_call];
    try exact IH.
  destruct (bool_decide (item_type item = u "tool_call_item")) eqn:E.
  - apply bool_decide_eq_true in E. rewrite E.
    change (bool_decide (u "tool_call_item" = u "file_search_call")) with false.
    cbn [length]. rewrite IH. reflexivity.
  - destruct (bool_decide (item_type item = u "file_search_call")); cbn [length].
    + rewrite IH. lia.
    + exact IH.
Qed.

Lemma process_message_native (rt : runtime) (message : str)
    (image_urls : option (list str)) (cb : option callback) :
  agent_invoked rt message image_urls = true ->
  process_message rt message image_urls cb = process_native rt message image_urls cb.
Proof.
  unfold agent_invoked, process_message.
  destruct (detect_zapier_mcp_needed rt message) as [[|c key]|]; try reflexivity.
  destruct (process_message_with_enhanced_multiturn_mcp rt (c :: key) message image_urls);
    [discriminate|].
  destruct (process_message_with_zapier_mcp_streaming rt (c :: key) message image_urls);
    [discriminate | reflexivity].
Qed.

(** C5.  When the agent is invoked, the stream ends without an exception
    and the callback does not raise, the ["tools"] list [process_message]
    returns has one record per event that opens a tool call, in the order of
    the events: exactly K records for K [tool_call_item] events (and one more
    for each [file_search_call] item, the file-search form of the same
    event), text deltas and other events adding none.  A record is completed
    only by an output event that arrives while it is the most recent one,
    which updates that record and no other; without output events every
    record stays as it was opened. *)
Theorem tool_calls_one_record_per_started_event (rt : runtime) (message : str)
    (image_urls : option (list str)) (cb : option callback)
    (result : run_result_streaming) :
  agent_invoked rt message image_urls = true ->
  run_streamed rt (make_agent_input message image_urls) = Return result ->
  failure result = None ->
  (forall c, default dummy_callback cb c = None) ->
  let tool_calls := tools (process_message rt message image_urls cb).1 in
  let K := length (List.filter is_tool_call_item (events result)) in
  let F := length (List.filter is_file_search_call (events result)) in
  tool_calls = expected_tool_calls (events result)
  /\ length tool_calls = K + F
  /\ (F = 0 -> length tool_calls = K)
  /\ Forall2 (fun t t0 => t = t0 \/ exists o, t = settle t0 (Some o))
             tool_calls (opened_tool_calls (events result))
  /\ ((forall ev, ev ∈ events result -> output_of ev = None) ->
      tool_calls = opened_tool_calls (events result)).
Proof.
  intros Hagent Hrun Hfail Hcb. simpl.
  rewrite (process_message_native _ _ _ _ Hagent).
  unfold process_native. rewrite Hrun.
  destruct (stream_loop_tool_calls (default dummy_callback cb) (events result)
              initial_state Hcb) as [Herr Htc].
  destruct (stream_loop (default dummy_callback cb) (events result) initial_state)
    as [st err]. simpl in Herr, Htc. subst err. rewrite Hfail. simpl.
  assert (Heq : tool_calls st = expected_tool_calls (events result)).
  { rewrite Htc. destruct (matching_output (events result)); reflexivity. }
  rewrite Heq.
  assert (Hlen : length (expected_tool_calls (events result))
                 = length (List.filter is_tool_call_item (events result))
                   + length (List.filter is_file_search_call (events result))).
  { rewrite <- opened_count. apply (Forall2_length _ _ _ (expected_vs_opened _)). }
  split; [reflexivity|]. split; [exact Hlen|].
  split; [intros HF; rewrite Hlen, HF; lia|].
  split; [apply expected_vs_opened | apply expected_without_outputs].
Qed.

End ToolCallTheorems.

Section AgentTheorems.

Import AgentProcessor.

(** The sample run: two [tool_call_item] events, two records; the first
    completed by its output, the second as it was opened. *)
Lemma tool_calls_one_record_per_started_event_witness :
  let result := {| events := sample_events; failure := None;
                   final_output := Some (u "Pronto.") |} in
  let rt := plain_runtime (Return result) in
  let tool_calls := tools (process_message rt (u "como está o clima?") None None).1 in
  length (List.filter is_tool_call_item sample_events) = 2 /\
  length tool_calls = 2 /\
  map type tool_calls = [tool_call_completed; tool_call_started].
Proof.
  pose proof (tool_calls_one_record_per_started_event
                (plain_runtime (Return {| events := sample_events; failure := None;
                                          final_output := Some (u "Pronto.") |}))
                (u "como está o clima?") None None
                {| events := sample_events; failure := None;
                   final_output := Some (u "Pronto.") |}
                eq_refl eq_refl eq_refl (fun _ => eq_refl)) as [Heq [Hlen _]].
  split; [reflexivity|]. split; [exact Hlen|].
  cbv zeta. rewrite Heq. reflexivity.
Defined.




(** C9 fails on the code: for an exception outside the three categories the
    outer handler of [process_message] returns a text that ends with
    [str(e)], here with the key fragment and request id of the provider's
    message; [process_think_message] does the same. *)
Theorem error_text_contains_exception_text :
  let rt := plain_runtime (Raise sample_error) in
  let r := process_message rt (u "resuma o relatório") None None in
  text r.1
  = u "Erro no processamento da mensagem: Incorrect API key provided: sk-proj-abc123 (request req_42)"
  /\ str_in (str_of_exn sample_error) (text r.1) = true
  /\ str_in (u "sk-proj-abc123") (text r.1) = true
  /\ str_in (str_of_exn sample_error) (MessageProcessor.think_error_text sample_error) = true.
Proof.
  cbv zeta. repeat split; vm_compute; reflexivity.
Qed.

End AgentTheorems.

(* ===================================================================== *)
(** * Splitting and joining *)
(* ===================================================================== *)

Section SplitFacts.

Lemma split_go_nonempty (sep : str) (k : nat) (s : str) : split_go sep k s <> [].
Proof.
  revert k. induction s as [|c s IH]; intros k; simpl; [discriminate|].
  destruct k as [|k]; [|apply IH].
  destruct (starts_with sep (c :: s)); [discriminate|].
  specialize (IH 0). destruct (split_go sep 0 s); [contradiction | discriminate].
Qed.

Lemma join_cons (sep p : str) (ps : list str) :
  ps <> [] -> join sep (p :: ps) = p ++ sep ++ join sep ps.
Proof. destruct ps; [contradiction | reflexivity]. Qed.

Lemma join_cons_head (sep : str) (c : char) (ps : list str) :
  ps <> [] -> join sep (cons_head c ps) = c :: join sep ps.
Proof.
  destruct ps as [|p [|q ps]]; [contradiction | reflexivity | reflexivity].
Qed.

(** Joining the pieces with the separator gives back what was split, from
    the point where the scan stood. *)
Lemma join_split_go (sep : str) (k : nat) (s : str) :
  sep <> [] -> join sep (split_go sep k s) = drop k s.
Proof.
  intros Hsep. revert k. induction s as [|c s IH]; intros k.
  - destruct k; reflexivity.
  - destruct k as [|k]; [|apply IH].
    cbn [split_go].
    destruct (starts_with sep (c :: s)) eqn:E.
    + rewrite join_cons by apply split_go_nonempty. rewrite IH.
      apply starts_with_spec in E as [post E].
      destruct sep as [|a sep]; [contradiction|]. simpl in E.
      injection E as -> ->. simpl. rewrite Nat.sub_0_r, drop_app_length.
      reflexivity.
    + rewrite join_cons_head by apply split_go_nonempty. rewrite IH. reflexivity.
Qed.

(** [sep.join(s.split(sep)) == s], for a non-empty separator. *)
Lemma join_split (sep s : str) : sep <> [] -> join sep (split sep s) = s.
Proof. intros Hsep. unfold split. rewrite join_split_go by exact Hsep. reflexivity. Qed.

Lemma split_two (sep s p1 p2 : str) :
  sep <> [] -> split sep s = [p1; p2] -> s = p1 ++ sep ++ p2.
Proof. intros Hsep H. rewrite <- (join_split sep s Hsep), H. reflexivity. Qed.

End SplitFacts.

(* ===================================================================== *)
(** * [_split_long_message] *)
(* ===================================================================== *)

Section SplitLongMessage.

Import MessageProcessor.

(** With a positive [max_length] the [while] loop ends within [length
    sentence] rounds; it cuts off chunks of [max_length] code points and
    leaves at most [max_length] of them. *)
Lemma hard_split_chunks (fuel max_length : nat) (sentence : str) (parts : list str) :
  1 <= max_length -> length sentence <= fuel ->
  exists chunks rest,
    hard_split fuel max_length sentence parts = Some (parts ++ chunks, rest) /\
    sentence = concat chunks ++ rest /\
    Forall (fun c => length c = max_length) chunks /\
    length rest <= max_length.
Proof.
  intros Hmax. revert sentence parts.
  induction fuel as [|fuel IH]; intros sentence parts Hlen.
  - destruct sentence; [|simpl in Hlen; lia].
    exists [], []. simpl. rewrite app_nil_r.
    repeat split; [constructor | lia].
  - cbn [hard_split]. destruct (Nat.ltb_spec max_length (length sentence)) as [Hlt|Hge].
    + destruct (IH (drop max_length sentence) (parts ++ [take max_length sentence]))
        as [chunks [rest [H1 [H2 [H3 H4]]]]].
      { rewrite length_drop. lia. }
      exists (take max_length sentence :: chunks), rest.
      rewrite H1, <- app_assoc. split; [reflexivity|].
      split; [|split; [|exact H4]].
      * simpl. rewrite <- app_assoc, <- H2, take_drop. reflexivity.
      * constructor; [|exact H3]. rewrite length_take. lia.
    + exists [], sentence. rewrite app_nil_r.
      repeat split; [constructor | exact Hge].
Qed.

Lemma truthy_app_break (p sep : str) : sep <> [] -> truthy (p ++ sep) = true.
Proof. destruct p, sep; try reflexivity. contradiction. Qed.

Lemma last_part_fixed (rest : str) :
  strip rest = rest -> concat (last_part rest) = rest.
Proof.
  intros H. unfold last_part. rewrite H.
  destruct rest as [|c rest]; [reflexivity|].
  cbn [truthy concat]. apply app_nil_r.
Qed.

(** The three levels on their simplest messages.  For a message longer than
    [max_length], [_split_long_message] splits at paragraph breaks first,
    then at sentence breaks, then by position, and keeps the order of the
    text:
    - a message with neither a paragraph break nor a sentence break is cut
      into consecutive chunks of [max_length] characters followed by the
      rest, stripped; the parts concatenated are the message when the rest
      has no white space at its ends;
    - a message of two paragraphs, each short enough, is split at the break
      into the first paragraph and the second, each stripped; when
      stripping removes nothing but the break, the parts joined by the break
      are the message;
    - a message of one paragraph with two sentences, each short enough, is
      split at the sentence break into the first sentence with its full stop
      and the second, each stripped; when stripping removes nothing but the
      space of the break, the parts joined by a space are the message. *)
Theorem split_long_message_by_level (message : str) (max_length : nat) :
  max_length < length message ->
  (1 <= max_length ->
   split paragraph_break message = [message] ->
   split (u ". ") message = [message] ->
   exists chunks rest,
     _split_long_message message max_length = Some (chunks ++ last_part rest) /\
     message = concat chunks ++ rest /\
     Forall (fun c => length c = max_length) chunks /\
     length rest <= max_length /\
     (strip rest = rest -> concat (chunks ++ last_part rest) = message))
  /\ (forall p1 p2,
       split paragraph_break message = [p1; p2] ->
       length p1 + 2 <= max_length -> length p2 <= max_length ->
       message = p1 ++ paragraph_break ++ p2 /\
       _split_long_message message max_length
       = Some (strip (p1 ++ paragraph_break) :: last_part p2) /\
       (strip (p1 ++ paragraph_break) = p1 -> strip p2 = p2 -> p2 <> [] ->
        option_map (join paragraph_break) (_split_long_message message max_length)
        = Some message))
  /\ (forall s1 s2,
       split paragraph_break message = [message] ->
       split (u ". ") message = [s1; s2] ->
       length s1 + 2 <= max_length -> length s2 <= max_length ->
       message = s1 ++ u ". " ++ s2 /\
       _split_long_message message max_length
       = Some (strip (s1 ++ u ". ") :: last_part s2) /\
       (strip (s1 ++ u ". ") = s1 ++ u "." -> strip s2 = s2 -> s2 <> [] ->
        option_map (join (u " ")) (_split_long_message message max_length)
        = Some message)).
Proof.
  intros Hlong.
  assert (Hleb : (length message <=? max_length) = false) by (apply Nat.leb_gt; exact Hlong).
  assert (Hover : (max_length <? length (@nil N) + length message + 2) = true)
    by (apply Nat.ltb_lt; simpl; lia).
  split; [|split].
  - intros Hmax Hpar Hsen.
    destruct (hard_split_chunks (length message) max_length message [] Hmax (le_n _))
      as [chunks [rest [H1 [H2 [H3 H4]]]]].
    exists chunks, rest.
    split; [|split; [exact H2|split; [exact H3|split; [exact H4|]]]].
    + unfold _split_long_message. rewrite Hleb.
      change (split [10%N; 10%N] message) with (split paragraph_break message).
      rewrite Hpar. cbn [for_paragraphs]. unfold on_paragraph. cbn [current_part parts].
      rewrite Hover. cbn [truthy]. rewrite Hsen. cbn [for_sentences].
      unfold on_sentence. cbn [current_part parts]. rewrite Hover. cbn [truthy].
      rewrite H1. cbn [current_part parts app]. unfold last_part.
      destruct (truthy (strip rest)); [reflexivity|]. rewrite app_nil_r. reflexivity.
    + intros Hstrip. rewrite concat_app, (last_part_fixed rest Hstrip). symmetry. exact H2.
  - intros p1 p2 Hpar Hp1 Hp2.
    assert (Hmsg : message = p1 ++ paragraph_break ++ p2)
      by (apply split_two; [discriminate | exact Hpar]).
    split; [exact Hmsg|].
    assert (Hlen : length message = length p1 + 2 + length p2).
    { rewrite Hmsg, !length_app. simpl. lia. }
    assert (Hres : _split_long_message message max_length
                   = Some (strip (p1 ++ paragraph_break) :: last_part p2)).
    { unfold _split_long_message. rewrite Hleb.
      change (split [10%N; 10%N] message) with (split paragraph_break message).
      rewrite Hpar. cbn [for_paragraphs]. unfold on_paragraph at 1.
      cbn [current_part parts].
      assert (H1 : (max_length <? length (@nil N) + length p1 + 2) = false)
        by (apply Nat.ltb_ge; simpl; lia).
      rewrite H1. unfold on_paragraph. cbn [current_part parts].
      change ([] ++ p1 ++ [10%N; 10%N]) with (p1 ++ paragraph_break).
      assert (H2 : (max_length <? length (p1 ++ paragraph_break) + length p2 + 2) = true).
      { apply Nat.ltb_lt. rewrite length_app. simpl. lia. }
      rewrite H2, truthy_app_break by discriminate.
      cbn [current_part parts app]. unfold last_part.
      destruct (truthy (strip p2)); reflexivity. }
    split; [exact Hres|].
    intros Hs1 Hs2 Hne. rewrite Hres. unfold last_part. rewrite Hs1, Hs2.
    destruct p2 as [|c p2]; [contradiction|]. cbn [truthy option_map join].
    rewrite Hmsg. reflexivity.
  - intros s1 s2 Hpar Hsen Hs1 Hs2.
    assert (Hmsg : message = s1 ++ u ". " ++ s2)
      by (apply split_two; [discriminate | exact Hsen]).
    split; [exact Hmsg|].
    assert (Hlen : length message = length s1 + 2 + length s2).
    { rewrite Hmsg, !length_app. simpl. lia. }
    assert (Hres : _split_long_message message max_length
                   = Some (strip (s1 ++ u ". ") :: last_part s2)).
    { unfold _split_long_message. rewrite Hleb.
      change (split [10%N; 10%N] message) with (split paragraph_break message).
      rewrite Hpar. cbn [for_paragraphs]. unfold on_paragraph. cbn [current_part parts].
      rewrite Hover. cbn [truthy]. rewrite Hsen. cbn [for_sentences].
      unfold on_sentence at 1. cbn [current_part parts].
      assert (H1 : (max_length <? length (@nil N) + length s1 + 2) = false)
        by (apply Nat.ltb_ge; simpl; lia).
      rewrite H1. unfold on_sentence. cbn [current_part parts].
      change ([] ++ s1 ++ u ". ") with (s1 ++ u ". ").
      assert (H2 : (max_length <? length (s1 ++ u ". ") + length s2 + 2) = true).
      { apply Nat.ltb_lt. rewrite length_app. simpl. lia. }
      rewrite H2, truthy_app_break by discriminate.
      cbn [current_part parts app]. unfold last_part.
      destruct (truthy (strip s2)); reflexivity. }
    split; [exact Hres|].
    intros Hst1 Hst2 Hne. rewrite Hres. unfold last_part. rewrite Hst1, Hst2.
    destruct s2 as [|c s2]; [contradiction|]. cbn [truthy option_map join].
    rewrite Hmsg, <- !app_assoc. reflexivity.
Qed.

End SplitLongMessage.

Section SplitLongMessageExamples.

Import MessageProcessor.

(** Two short paragraphs that do not fit into twelve characters together. *)
Lemma split_long_message_by_level_witness :
  let message := u "ola mundo" ++ paragraph_break ++ u "ate logo" in
  12 < length message /\
  split paragraph_break message = [u "ola mundo"; u "ate logo"] /\
  _split_long_message message 12 = Some [u "ola mundo"; u "ate logo"].
Proof.
  assert (Hlong : 12 < length (u "ola mundo" ++ paragraph_break ++ u "ate logo"))
    by (apply Nat.ltb_lt; reflexivity).
  split; [exact Hlong|]. split; [reflexivity|].
  destruct (split_long_message_by_level
              (u "ola mundo" ++ paragraph_break ++ u "ate logo") 12 Hlong)
    as [_ [Hpar _]].
  destruct (Hpar (u "ola mundo") (u "ate logo") eq_refl) as [_ [Hparts _]].
  - apply Nat.leb_le. reflexivity.
  - apply Nat.leb_le. reflexivity.
  - exact Hparts.
Defined.

(** White space and sentence breaks.  A message of 3000 letters, three
    spaces and a letter has no separator to split at; it is cut by position,
    the rest is stripped, and the parts concatenated have lost the spaces.
    For 3001 letters, a sentence break and one more letter, the second part
    returned is ["ab."], which occurs nowhere in the message. *)
Lemma split_parts_do_not_reassemble :
  (3000 < length spaced_message /\
   split paragraph_break spaced_message = [spaced_message] /\
   split (u ". ") spaced_message = [spaced_message] /\
   _split_long_message spaced_message 3000 = Some [repeat 97%N 3000; u "b"] /\
   concat [repeat 97%N 3000; u "b"] <> spaced_message)
  /\ (3000 < length glued_sentence_message /\
      _split_long_message glued_sentence_message 3000
      = Some [repeat 97%N 3000; u "ab."] /\
      ~ (exists s0 s1 s2,
           glued_sentence_message = s0 ++ repeat 97%N 3000 ++ s1 ++ u "ab." ++ s2)).
Proof.
  split.
  - split; [apply Nat.ltb_lt; vm_compute; reflexivity|].
    split; [vm_compute; reflexivity|].
    split; [vm_compute; reflexivity|].
    split; [vm_compute; reflexivity|].
    intros H. apply (f_equal length) in H. vm_compute in H. discriminate H.
  - split; [apply Nat.ltb_lt; vm_compute; reflexivity|].
    split; [vm_compute; reflexivity|].
    intros [s0 [s1 [s2 H]]].
    assert (Hin : str_in (u "ab.") glued_sentence_message = true).
    { apply str_in_spec. exists (s0 ++ repeat 97%N 3000 ++ s1), s2.
      rewrite H, <- !app_assoc. reflexivity. }
    assert (Hout : str_in (u "ab.") glued_sentence_message = false)
      by (vm_compute; reflexivity).
    congruence.
Qed.

(** C7 fails on the code.  The message has three paragraphs of 2000, 1200
    and 1000 letters and no white space but the two paragraph breaks.  The
    first paragraph becomes a part when the second does not fit; the second
    then starts the next part without its paragraph break, and the third is
    appended to it directly.  The parts returned are the first paragraph,
    and the second and third glued together: a text that occurs nowhere in
    the message, so that whatever is put before, between and after the two
    parts, the result is not the message; in particular joining the parts
    with the paragraph break does not give it back. *)
Theorem split_glues_paragraphs :
  3000 < length three_paragraph_message
  /\ split paragraph_break three_paragraph_message
     = [repeat 97%N 2000; repeat 98%N 1200; repeat 99%N 1000]
  /\ _split_long_message three_paragraph_message 3000
     = Some [repeat 97%N 2000; repeat 98%N 1200 ++ repeat 99%N 1000]
  /\ ~ (exists s0 s1 s2,
          three_paragraph_message
          = s0 ++ repeat 97%N 2000 ++ s1 ++ (repeat 98%N 1200 ++ repeat 99%N 1000) ++ s2)
  /\ option_map (join paragraph_break) (_split_long_message three_paragraph_message 3000)
     <> Some three_paragraph_message.
Proof.
  assert (Hout : str_in (repeat 98%N 1200 ++ repeat 99%N 1000) three_paragraph_message
                 = false) by (vm_compute; reflexivity).
  assert (Hres : _split_long_message three_paragraph_message 3000
                 = Some [repeat 97%N 2000; repeat 98%N 1200 ++ repeat 99%N 1000])
    by (vm_compute; reflexivity).
  split; [apply Nat.ltb_lt; vm_compute; reflexivity|].
  split; [vm_compute; reflexivity|].
  split; [exact Hres|]. split.
  - intros [s0 [s1 [s2 H]]].
    assert (Hin : str_in (repeat 98%N 1200 ++ repeat 99%N 1000) three_paragraph_message
                  = true).
    { apply str_in_spec. exists (s0 ++ repeat 97%N 2000 ++ s1), s2.
      rewrite H at 1. rewrite <- !app_assoc. reflexivity. }
    congruence.
  - rewrite Hres. intros H. apply (f_equal (option_map length)) in H.
    vm_compute in H. discriminate H.
Qed.

(** C10 fails on the code: a paragraph longer than [max_length] that follows
    a shorter one is returned whole, here as a part of 3001 characters for
    [max_length = 3000]. *)
Theorem split_part_longer_than_max_length :
  3000 < length overlong_paragraph_message /\
  _split_long_message overlong_paragraph_message 3000
  = Some [u "x"; repeat 97%N 3001] /\
  length (repeat 97%N 3001) = 3001.
Proof.
  split; [apply Nat.ltb_lt; vm_compute; reflexivity|].
  split; vm_compute; reflexivity.
Qed.

End SplitLongMessageExamples.

(* ===================================================================== *)
(** * Retry and backoff *)
(* ===================================================================== *)

Section RetryTheorems.

Import MessageProcessor.

Lemma backoff_time_values : map backoff_time [0; 1; 2]%Z = [1; 2; 4]%Z.
Proof. reflexivity. Qed.

Lemma backoff_time_below_cap (r : Z) :
  (0 <= r < 3)%Z -> backoff_time r = (2 ^ r)%Z /\ (1 <= backoff_time r <= 4)%Z.
Proof.
  intros H. assert (r = 0 \/ r = 1 \/ r = 2)%Z as [-> | [-> | ->]] by lia;
    vm_compute; repeat split; congruence.
Qed.

Lemma sleeps_app (effects more : list effect) :
  sleeps (effects ++ more) = sleeps effects ++ sleeps more.
Proof. unfold sleeps. apply omap_app. Qed.

Lemma report_error_sleeps (slack : effect -> option exn) (user_error_msg : str) :
  sleeps (report_error slack user_error_msg).1 = [].
Proof.
  unfold report_error. destruct (slack (ChatUpdate user_error_msg)); [|reflexivity].
  destruct (slack (Say _)); reflexivity.
Qed.

(** The retry branch of the handler: for a retryable exception with fewer
    than 3 retries recorded, the handler sleeps [min(2 ^ r, 10)] seconds
    once, the retry call raises [AttributeError], the message for that
    exception is reported, and the retry count is cleared.  Nothing else is
    done: the pipeline is not entered again. *)
Lemma retry_branch (friendly : exn -> str) (should_retry : exn -> bool)
    (slack : effect -> option exn) (self : self_state) (e retry_error : exn) :
  should_retry e = true -> (default 0%Z (_retry_count self) < 3)%Z ->
  process_and_respond_streaming = Raise retry_error ->
  on_processing_error friendly should_retry slack self e
  = ({| _retry_count := None |},
     Sleep (backoff_time (default 0%Z (_retry_count self)))
       :: (report_error slack (friendly retry_error)).1,
     (report_error slack (friendly retry_error)).2).
Proof.
  intros Hretry Hlt Hcall. unfold on_processing_error. rewrite Hretry. cbn [andb].
  assert (Hltb : (default 0%Z (_retry_count self) <? 3)%Z = true) by (apply Z.ltb_lt; exact Hlt).
  rewrite Hltb, Hcall. destruct (report_error slack (friendly retry_error)); reflexivity.
Qed.

(** C3 fails on the code.  A provider error that is a timeout, raised
    inside the agent run, does not reach the retry at all: the agent layer
    turns it into a reply with the timeout message.  When an exception
    classified as retryable does reach the handler (raised elsewhere in the
    [try] block), on a processor with no retry recorded, the handler sleeps
    1 second (not 2), and its retry call raises [AttributeError], the class
    having no method [process_and_respond_streaming]: the pipeline is not
    run again, what is reported is the message for the [AttributeError],
    not for the exception, and the retry count is cleared.  So every later
    exception is handled in the same way: over any number of them in a row
    the delays are 1 second each, never 2, 4, 8, and no retry of the
    pipeline takes place. *)
Theorem retryable_error_is_not_retried
    (friendly : exn -> str) (should_retry : exn -> bool)
    (slack : effect -> option exn) (e : exn) :
  should_retry e = true ->
  let fresh := {| _retry_count := None |} in
  let retry_error :=
    OtherException (u "AttributeError")
      (u "'MessageProcessor' object has no attribute 'process_and_respond_streaming'") in
  let outcome := on_processing_error friendly should_retry slack fresh e in
  (forall message,
     AgentProcessor.process_message (AgentProcessor.plain_runtime (Raise timeout_error))
       message None None
     = (AgentProcessor.error_response timeout_error, [])
     /\ AgentProcessor.text (AgentProcessor.error_response timeout_error)
        = u "Timeout na resposta. Tente novamente com uma mensagem mais simples.")
  /\ outcome
     = (fresh, Sleep 1 :: (report_error slack (friendly retry_error)).1,
        (report_error slack (friendly retry_error)).2)
  /\ sleeps outcome.1.2 = [1%Z]
  /\ sleeps outcome.1.2 <> [2; 4; 8]%Z
  /\ (forall n,
        sleeps (on_processing_errors friendly should_retry (fun _ => None) fresh
                  (repeat e n)).2
        = repeat 1%Z n)
  /\ (on_processing_errors friendly should_retry (fun _ => None) fresh (repeat e 3)).2
     = [Sleep 1; ChatUpdate (friendly retry_error);
        Sleep 1; ChatUpdate (friendly retry_error);
        Sleep 1; ChatUpdate (friendly retry_error)].
Proof.
  intros Hretry. cbv zeta.
  assert (Hone : forall slack',
             on_processing_error friendly should_retry slack'
               {| _retry_count := None |} e
             = ({| _retry_count := None |},
                Sleep 1
                  :: (report_error slack'
                        (friendly (OtherException (u "AttributeError")
                           (u "'MessageProcessor' object has no attribute 'process_and_respond_streaming'")))).1,
                (report_error slack'
                   (friendly (OtherException (u "AttributeError")
                      (u "'MessageProcessor' object has no attribute 'process_and_respond_streaming'")))).2)).
  { intros slack'.
    apply (retry_branch friendly should_retry slack' {| _retry_count := None |}
             e _ Hretry); [cbn; lia | reflexivity]. }
  split; [intros message; split; reflexivity|].
  split; [apply Hone|]. rewrite Hone. cbn [fst snd].
  assert (Hsleeps : forall effects, sleeps (Sleep 1 :: effects) = 1%Z :: sleeps effects)
    by reflexivity.
  split; [rewrite Hsleeps, report_error_sleeps; reflexivity|].
  split; [rewrite Hsleeps, report_error_sleeps; discriminate|].
  assert (Hquiet : on_processing_error friendly should_retry (fun _ => None)
                     {| _retry_count := None |} e
                   = ({| _retry_count := None |},
                      [Sleep 1;
                       ChatUpdate (friendly (OtherException (u "AttributeError")
                         (u "'MessageProcessor' object has no attribute 'process_and_respond_streaming'")))],
                      Return ()))
    by (rewrite Hone; reflexivity).
  split.
  - induction n as [|n IH]; [reflexivity|].
    cbn [repeat on_processing_errors]. rewrite Hquiet.
    destruct (on_processing_errors friendly should_retry (fun _ => None)
                {| _retry_count := None |} (repeat e n)) as [final more].
    cbn [snd] in *. rewrite sleeps_app, IH. reflexivity.
  - cbn [repeat on_processing_errors]. rewrite !Hquiet. reflexivity.
Qed.

(** A timeout that reaches the handler three times in a row, with the
    messages of [agent/processor.py] standing in for those of
    [server/utils.py] and Slack accepting every call. *)
Lemma retryable_error_is_not_retried_witness :
  should_retry_error timeout_error = true
  /\ on_processing_error AgentProcessor.error_msg should_retry_error (fun _ => None)
       {| _retry_count := None |} timeout_error
     = ({| _retry_count := None |},
        [Sleep 1;
         ChatUpdate (u "Erro no processamento da mensagem: 'MessageProcessor' object has no attribute 'process_and_respond_streaming'")],
        Return ())
  /\ sleeps (on_processing_errors AgentProcessor.error_msg should_retry_error
               (fun _ => None) {| _retry_count := None |} (repeat timeout_error 3)).2
     = [1; 1; 1]%Z.
Proof.
  assert (Hretry : should_retry_error timeout_error = true) by reflexivity.
  destruct (retryable_error_is_not_retried AgentProcessor.error_msg should_retry_error
              (fun _ => None) timeout_error Hretry) as [_ [Hone [_ [_ [Hall _]]]]].
  split; [exact Hretry|]. split; [|exact (Hall 3)].
  cbv beta iota zeta in Hone. rewrite Hone. vm_compute. reflexivity.
Defined.

End RetryTheorems.

(* ===================================================================== *)
(** * The token-limit warning *)
(* ===================================================================== *)

Section TokenLimitTheorems.

Import AgentProcessor ContextManager MessageProcessor.

Lemma total_tokens_of_usage (count_tokens : str -> Z) (response : response)
    (context_input : str) (us : usage) (i o : Z) :
  token_usage response = Some us -> usage_input us = Some i -> usage_output us = Some o ->
  total_tokens_of count_tokens response context_input = (i + o)%Z.
Proof.
  intros H1 H2 H3. unfold total_tokens_of. rewrite H1. simpl. rewrite H2, H3. reflexivity.
Qed.

(** A reply of the native path reports zero tokens, so it adds nothing to
    the thread's total. *)
Lemma native_reply_counts_no_tokens (count_tokens : str -> Z) (rt : runtime)
    (message : str) (image_urls : option (list str)) (cb : option callback)
    (context_input : str) :
  total_tokens_of count_tokens (process_native rt message image_urls cb).1 context_input
  = 0%Z.
Proof.
  unfold process_native.
  destruct (run_streamed rt (make_agent_input message image_urls)) as [result|[m|t m]];
    try reflexivity.
  destruct (stream_loop (default dummy_callback cb) (events result) initial_state)
    as [st [e|]]; [reflexivity|].
  destruct (failure result); reflexivity.
Qed.

(** C6.  Let [T] be the total a thread has accumulated, [B] the budget of
    the model and [dT] the input plus output tokens of the exchange.  The
    text sent is the response text followed by the warning
    [check_context_limit] returns, which is non-empty when [T + dT >= B] and
    empty when [T + dT < B]; the thread's total becomes [T + dT]; and in both
    cases the first Slack call made is the edit that carries the text, so
    the warning never stands in the way of the send. *)
Theorem token_limit_warning_appended
    (count_tokens : str -> Z) (format_message_for_slack : str -> str)
    (budget : str -> Z) (limit_warning : str -> Z -> str)
    (slack : effect -> option exn)
    (cm : context_manager) (response : response) (context_input : str)
    (thread_ts_for_reply : option str) (original_channel_id model_name : str)
    (header_prefix_final : str) :
  (forall model total, limit_warning model total <> []) ->
  let thread_key := thread_key_of thread_ts_for_reply original_channel_id in
  let T := default 0%Z (thread_totals cm !! thread_key) in
  let dT := total_tokens_of count_tokens response context_input in
  let B := budget model_name in
  let out := finalize count_tokens format_message_for_slack budget limit_warning slack
                      cm response context_input thread_ts_for_reply
                      original_channel_id model_name header_prefix_final in
  exists memory_warning,
    out.1.1.2 = text response ++ memory_warning
    /\ ((B <= T + dT)%Z -> memory_warning <> [])
    /\ ((T + dT < B)%Z -> memory_warning = [])
    /\ thread_totals out.1.1.1 !! thread_key = Some (T + dT)%Z
    /\ head out.1.2
       = Some (ChatUpdate
                 (header_prefix_final
                  ++ format_message_for_slack (text response ++ memory_warning)))
    /\ (forall us i o,
          token_usage response = Some us ->
          usage_input us = Some i -> usage_output us = Some o -> dT = (i + o)%Z).
Proof.
  intros Hwarn thread_key T dT B out. subst out. unfold finalize, check_context_limit.
  fold thread_key. fold dT. fold T. fold B.
  destruct (Z.leb_spec B (T + dT)) as [Hle|Hlt].
  - exists (limit_warning model_name (T + dT)%Z).
    destruct (slack _) as [e1|]; [destruct (slack _) as [e2|]|]; simpl;
      (split; [reflexivity|]); (split; [intros _; apply Hwarn|]);
      (split; [intros H; lia|]);
      (split; [apply lookup_insert_eq|]);
      (split; [reflexivity|]);
      intros us i o; apply total_tokens_of_usage.
  - exists [].
    destruct (slack _) as [e1|]; [destruct (slack _) as [e2|]|]; simpl;
      (split; [reflexivity|]); (split; [intros H; lia|]);
      (split; [reflexivity|]);
      (split; [apply lookup_insert_eq|]);
      (split; [reflexivity|]);
      intros us i o; apply total_tokens_of_usage.
Qed.

(** A thread at 90 of 100 tokens; an exchange of 6 + 4 tokens reaches the
    budget and gets the warning. *)
Lemma token_limit_warning_appended_witness :
  let limit_warning := fun (_ : str) (_ : Z) => u " (limite de contexto atingido)" in
  let cm := {| thread_totals := {[ u "1700000000.000100" := 90%Z ]} |} in
  let response := {| text := u "Feito."; tools := [];
                     token_usage := Some {| usage_input := Some 6%Z;
                                            usage_output := Some 4%Z;
                                            usage_total := Some 10%Z |} |} in
  let out := finalize (fun _ => 0%Z) (fun s => s) (fun _ => 100%Z) limit_warning
                      (fun _ => None) cm response (u "oi")
                      (Some (u "1700000000.000100")) (u "C1") (u "gpt-4o") [] in
  (forall model total, limit_warning model total <> []) /\
  out.1.1.2 = u "Feito. (limite de contexto atingido)" /\
  thread_totals out.1.1.1 !! u "1700000000.000100" = Some 100%Z.
Proof.
  assert (Hwarn : forall (model : str) (total : Z),
             u " (limite de contexto atingido)" <> []) by (intros _ _; discriminate).
  split; [exact Hwarn|].
  destruct (token_limit_warning_appended
              (fun _ => 0%Z) (fun s => s) (fun _ => 100%Z)
              (fun (_ : str) (_ : Z) => u " (limite de contexto atingido)")
              (fun _ => None)
              {| thread_totals := {[ u "1700000000.000100" := 90%Z ]} |}
              {| text := u "Feito."; tools := [];
                 token_usage := Some {| usage_input := Some 6%Z;
                                        usage_output := Some 4%Z;
                                        usage_total := Some 10%Z |} |}
              (u "oi") (Some (u "1700000000.000100")) (u "C1") (u "gpt-4o") [] Hwarn)
    as [w [Htext [_ [_ [Htotal _]]]]].
  split; [vm_compute; reflexivity | exact Htotal].
Defined.

End TokenLimitTheorems.

(* ===================================================================== *)
(** * Deduplication of events *)
(* ===================================================================== *)

Section DedupFacts.

Import EventHandlers.

Variable set_order : gset str -> list str.

Lemma prune_small (s : gset str) :
  (Z.of_nat (size s) <= 10000)%Z -> prune set_order s = s.
Proof.
  intros H. unfold prune.
  destruct (Z.ltb_spec 10000 (Z.of_nat (size s))); [lia | reflexivity].
Qed.

(** A delivery that is not accepted, or whose key is in the set, is skipped
    and leaves the set as it is. *)
Lemma handle_skip (processed : gset str) (sd : subscription * delivery) :
  accepted sd = false \/ message_key (event sd.2) ∈ processed ->
  handle set_order processed sd = (processed, None).
Proof.
  destruct sd as [[] d]; unfold handle, accepted, handle_message_events,
    handle_app_mention_events; cbn [fst snd]; intros [H | H].
  - destruct (is_dm_channel d); [|reflexivity]. cbn [negb andb] in *.
    destruct (bool_decide (user (event d) = Some bot_user_id)); [reflexivity|discriminate].
  - destruct (is_dm_channel d); [|reflexivity]. cbn [negb].
    destruct (bool_decide (user (event d) = Some bot_user_id)); [reflexivity|].
    rewrite bool_decide_eq_true_2 by exact H. reflexivity.
  - destruct (is_set (channel (event d)) && is_set (user (event d)) && is_set (ts (event d)));
      [|reflexivity].
    cbn [negb andb] in *. destruct (agent_ready d); [|reflexivity]. cbn [negb andb] in *.
    destruct (bool_decide (user (event d) = Some bot_user_id)); [reflexivity|].
    cbn [negb andb] in *. destruct (is_dm_channel d); [reflexivity|discriminate].
  - destruct (is_set (channel (event d)) && is_set (user (event d)) && is_set (ts (event d)));
      [|reflexivity].
    cbn [negb]. destruct (agent_ready d); [|reflexivity]. cbn [negb].
    destruct (bool_decide (user (event d) = Some bot_user_id)); [reflexivity|].
    destruct (is_dm_channel d); [reflexivity|].
    rewrite bool_decide_eq_true_2 by exact H. reflexivity.
Qed.

(** An accepted delivery with a new key is handed on, and its key is put
    into the set (which the mention handler then prunes). *)
Lemma handle_new (processed : gset str) (sd : subscription * delivery) :
  accepted sd = true -> message_key (event sd.2) ∉ processed ->
  exists d, handle set_order processed sd = (inserted set_order processed sd, Some d).
Proof.
  destruct sd as [[] d]; unfold handle, accepted, inserted, handle_message_events,
    handle_app_mention_events; cbn [fst snd]; intros Hacc Hnew.
  - apply andb_true_iff in Hacc as [-> Hbot]. cbn [negb].
    apply negb_true_iff in Hbot. rewrite Hbot.
    rewrite bool_decide_eq_false_2 by exact Hnew. eauto.
  - repeat (apply andb_true_iff in Hacc as [Hacc ?]).
    repeat match goal with
           | H : negb _ = true |- _ => apply negb_true_iff in H
           end.
    rewrite Hacc. repeat match goal with H : _ = _ |- _ => rewrite H end.
    cbn [negb andb]. rewrite bool_decide_eq_false_2 by exact Hnew.
    destruct (starts_with _ _); eauto.
Qed.

Lemma handle_dispatch_iff (processed : gset str) (sd : subscription * delivery) :
  is_Some (handle set_order processed sd).2
  <-> accepted sd = true /\ message_key (event sd.2) ∉ processed.
Proof.
  split.
  - intros [d Hd]. destruct (accepted sd) eqn:Hacc.
    + split; [reflexivity|]. intros Hin.
      rewrite (handle_skip processed sd (or_intror Hin)) in Hd. discriminate.
    + rewrite (handle_skip processed sd (or_introl Hacc)) in Hd. discriminate.
  - intros [Hacc Hnew]. destruct (handle_new processed sd Hacc Hnew) as [d ->]. eauto.
Qed.

Lemma inserted_small (processed : gset str) (sd : subscription * delivery) :
  message_key (event sd.2) ∉ processed ->
  (Z.of_nat (size processed) < 10000)%Z ->
  inserted set_order processed sd = processed ∪ {[ message_key (event sd.2) ]}
  /\ size (inserted set_order processed sd) = S (size processed).
Proof.
  intros Hnew Hsize.
  assert (Hs : size (processed ∪ {[ message_key (event sd.2) ]}) = S (size processed)).
  { rewrite size_union by set_solver. rewrite size_singleton. lia. }
  unfold inserted. destruct sd.1; [split; [reflexivity | exact Hs]|].
  rewrite prune_small by lia. split; [reflexivity | exact Hs].
Qed.

(** As long as the set stays within 10000 keys, a run only adds the keys it
    hands on, each of them new when it is handed on. *)
Lemma run_within_bound (deliveries : list (subscription * delivery)) (processed : gset str) :
  (Z.of_nat (size processed) + Z.of_nat (length deliveries) <= 10000)%Z ->
  let keys := processed_keys deliveries (run set_order processed deliveries).2 in
  (run set_order processed deliveries).1 = processed ∪ list_to_set keys
  /\ NoDup keys
  /\ (forall k, k ∈ keys -> k ∉ processed).
Proof.
  revert processed. induction deliveries as [|sd ds IH]; intros processed Hsize.
  - simpl. split; [set_solver|]. split; [constructor | intros k H; inversion H].
  - cbn [run]. cbn [length] in Hsize.
    destruct (accepted sd) eqn:Hacc;
      [destruct (decide (message_key (event sd.2) ∈ processed)) as [Hin|Hnew]|].
    + rewrite (handle_skip processed sd (or_intror Hin)).
      specialize (IH processed ltac:(lia)).
      destruct (run set_order processed ds) as [final outs]. exact IH.
    + destruct (handle_new processed sd Hacc Hnew) as [d ->].
      destruct (inserted_small processed sd Hnew ltac:(lia)) as [Hins Hsz].
      specialize (IH (inserted set_order processed sd) ltac:(lia)).
      destruct (run set_order (inserted set_order processed sd) ds) as [final outs].
      cbn [fst snd processed_keys] in *. destruct IH as [H1 [H2 H3]].
      rewrite Hins in H1, H3. split; [rewrite H1; set_solver|].
      split; [apply NoDup_cons; split; [intros Hk; apply (H3 _ Hk); set_solver | exact H2]|].
      intros k Hk. apply elem_of_cons in Hk as [-> | Hk]; [exact Hnew|].
      specialize (H3 k Hk). set_solver.
    + rewrite (handle_skip processed sd (or_introl Hacc)).
      specialize (IH processed ltac:(lia)).
      destruct (run set_order processed ds) as [final outs]. exact IH.
Qed.

End DedupFacts.

Section DedupTheorems.

Import EventHandlers.

(** C4, as amended.  A delivery whose key (channel, timestamp, sender) is
    in the processed set is skipped and changes nothing, so no key is
    processed twice while it is resident; a delivery is handed on exactly
    when it passes the handler's checks and its key is not in the set.
    While the set holds fewer than 10000 keys, the same event delivered
    twice in a row is handed on at most once: the second delivery is
    skipped.  In a run of at most 10000 deliveries from an empty set, no
    key is handed on twice. *)
Theorem no_key_processed_twice_while_resident
    (set_order : gset str -> list str) (processed : gset str)
    (sd : subscription * delivery) :
  let key := message_key (event sd.2) in
  (key ∈ processed -> handle set_order processed sd = (processed, None))
  /\ (is_Some (handle set_order processed sd).2
      <-> accepted sd = true /\ key ∉ processed)
  /\ ((Z.of_nat (size processed) < 10000)%Z ->
      (run set_order processed [sd; sd]).2
      = [(handle set_order processed sd).2; None])
  /\ (forall deliveries,
        (Z.of_nat (length deliveries) <= 10000)%Z ->
        NoDup (processed_keys deliveries (run set_order ∅ deliveries).2)).
Proof.
  intros key. split; [|split; [|split]].
  - intros Hin. apply handle_skip. right. exact Hin.
  - apply handle_dispatch_iff.
  - intros Hsize. cbn [run].
    destruct (accepted sd) eqn:Hacc;
      [destruct (decide (key ∈ processed)) as [Hin|Hnew]|].
    + rewrite (handle_skip set_order processed sd (or_intror Hin)).
      rewrite (handle_skip set_order processed sd (or_intror Hin)). reflexivity.
    + destruct (handle_new set_order processed sd Hacc Hnew) as [d ->].
      destruct (inserted_small set_order processed sd Hnew Hsize) as [Hins _].
      rewrite (handle_skip set_order (inserted set_order processed sd) sd);
        [reflexivity|].
      right. rewrite Hins. set_solver.
    + rewrite (handle_skip set_order processed sd (or_introl Hacc)).
      rewrite (handle_skip set_order processed sd (or_introl Hacc)). reflexivity.
  - intros deliveries Hlen.
    apply (run_within_bound set_order deliveries ∅).
    rewrite size_empty. lia.
Qed.

(** The sample mention delivered twice to a fresh handler: handed on once. *)
Lemma no_key_processed_twice_while_resident_witness :
  let sd := (app_mention, sample_mention) in
  (Z.of_nat (size (∅ : gset str)) < 10000)%Z /\
  accepted sd = true /\
  (message_key (event sd.2) ∉ (∅ : gset str)) /\
  (exists d, (run elements ∅ [sd; sd]).2 = [Some d; None]).
Proof.
  assert (Hsize : (Z.of_nat (size (∅ : gset str)) < 10000)%Z)
    by (rewrite size_empty; lia).
  assert (Hnew : message_key (event sample_mention) ∉ (∅ : gset str))
    by apply not_elem_of_empty.
  split; [exact Hsize|]. split; [reflexivity|]. split; [exact Hnew|].
  destruct (no_key_processed_twice_while_resident elements ∅ (app_mention, sample_mention))
    as [_ [Hiff [Htwice _]]].
  destruct (proj2 Hiff (conj eq_refl Hnew)) as [d Hd].
  exists d. cbv zeta. rewrite (Htwice Hsize), Hd. reflexivity.
Defined.

Lemma older_key_length (i : nat) : length (older_key i) = 6 + i.
Proof.
  unfold older_key, message_key. cbn [fmt default channel ts user]. unfold id.
  rewrite !length_app, repeat_length. simpl. lia.
Qed.

Lemma older_key_inj : Inj (=) (=) older_key.
Proof.
  intros i j H. apply (f_equal length) in H. rewrite !older_key_length in H. lia.
Qed.

Lemma full_set_size : size full_set = Z.to_nat 10000.
Proof.
  unfold full_set. rewrite size_list_to_set.
  - rewrite length_fmap, length_seq. reflexivity.
  - apply (NoDup_fmap_2 older_key (Inj0 := older_key_inj)). apply NoDup_seq.
Qed.

Lemma sample_key_not_in_full_set : message_key (event sample_mention) ∉ full_set.
Proof.
  unfold full_set. rewrite elem_of_list_to_set. intros Hin.
  apply list_elem_of_fmap in Hin as [i [Hk _]].
  assert (Hi : i = 1).
  { apply (f_equal length) in Hk. rewrite older_key_length in Hk.
    vm_compute in Hk. lia. }
  subst i. vm_compute in Hk. discriminate Hk.
Qed.

Lemma discard_all_removes (old_messages : list str) (processed : gset str) (k : str) :
  k ∈ old_messages -> k ∉ discard_all processed old_messages.
Proof.
  unfold discard_all. revert processed.
  induction old_messages as [|m ms IH]; intros processed Hin; [inversion Hin|].
  simpl. destruct (decide (k ∈ ms)) as [Hms|Hms]; [apply IH; exact Hms|].
  apply elem_of_cons in Hin as [-> | Hin]; [|contradiction].
  assert (Hout : forall (l : list str) (s : gset str),
             m ∉ s -> m ∉ fold_left (fun s old_msg => s ∖ {[old_msg]}) l s).
  { induction l as [|x l IHl]; intros s Hs; [exact Hs|]. simpl. apply IHl. set_solver. }
  apply Hout. set_solver.
Qed.

(** When the set is full, pruning in an order that starts with the newest
    key removes that key. *)
Lemma prune_evicts_first (k : str) (s : gset str) :
  k ∉ s -> (10000 <= Z.of_nat (size s))%Z ->
  k ∉ prune (order_with_first k) (s ∪ {[k]}).
Proof.
  intros Hnew Hfull. unfold prune.
  assert (Hsize : size (s ∪ {[k]}) = S (size s)).
  { rewrite size_union by set_solver. rewrite size_singleton. lia. }
  rewrite Hsize.
  destruct (Z.ltb_spec 10000 (Z.of_nat (S (size s)))) as [_|Hle]; [|lia].
  apply discard_all_removes. unfold order_with_first.
  rewrite bool_decide_eq_true_2 by set_solver. left.
Qed.

(** C4, as stated, fails: with 10000 keys in the set, and an iteration
    order that starts with the newest key, the mention is handed on, its key
    is pruned with the 1000 first keys, and the same mention delivered again
    is handed on a second time. *)
Lemma evicted_key_processed_again :
  let sd := (app_mention, sample_mention) in
  let first := handle (order_with_first (message_key (event sample_mention))) full_set sd in
  let second := handle (order_with_first (message_key (event sample_mention))) first.1 sd in
  is_Some first.2 /\ is_Some second.2.
Proof.
  cbv zeta.
  assert (Hacc : accepted (app_mention, sample_mention) = true) by reflexivity.
  destruct (handle_new (order_with_first (message_key (event sample_mention))) full_set
              (app_mention, sample_mention) Hacc sample_key_not_in_full_set)
    as [d1 H1].
  rewrite H1. cbn [fst snd]. split; [eauto|].
  apply handle_dispatch_iff. split; [exact Hacc|].
  apply prune_evicts_first; [exact sample_key_not_in_full_set|].
  rewrite full_set_size, Z2Nat.id; lia.
Qed.

End DedupTheorems.

(* ===================================================================== *)
(** * More on [_split_long_message]: the loops *)
(* ===================================================================== *)

Section SplitLoops.

Import MessageProcessor.

Lemma lstrip_length (s : str) : length (lstrip s) <= length s.
Proof.
  induction s as [|c s IH]; simpl; [lia|].
  destruct (isspace c); simpl; lia.
Qed.

Lemma strip_length (s : str) : length (strip s) <= length s.
Proof.
  unfold strip, rstrip. rewrite length_rev.
  etransitivity; [apply lstrip_length|]. rewrite length_rev. apply lstrip_length.
Qed.

Lemma join_length_ge (sep piece : str) (pieces : list str) :
  piece ∈ pieces -> length piece <= length (join sep pieces).
Proof.
  induction pieces as [|p ps IH]; intros Hin; [inversion Hin|].
  destruct ps as [|q ps].
  - apply list_elem_of_singleton in Hin as ->. simpl. lia.
  - change (join sep (p :: q :: ps)) with (p ++ sep ++ join sep (q :: ps)).
    rewrite !length_app. apply elem_of_cons in Hin as [-> | Hin]; [lia|].
    specialize (IH Hin). lia.
Qed.

(** A piece of a split is no longer than what was split. *)
Lemma split_piece_length (sep s piece : str) :
  sep <> [] -> piece ∈ split sep s -> length piece <= length s.
Proof.
  intros Hsep Hin. pose proof (join_length_ge sep piece (split sep s) Hin) as H.
  rewrite (join_split sep s Hsep) in H. exact H.
Qed.

Lemma weight_cons (piece : str) (pieces : list str) :
  weight (piece :: pieces) = length piece + 2 + weight pieces.
Proof. reflexivity. Qed.

(** With a separator of two characters, the pieces weigh two more than the
    text they were split from. *)
Lemma weight_join (sep : str) (pieces : list str) :
  length sep = 2 -> pieces <> [] -> weight pieces = length (join sep pieces) + 2.
Proof.
  intros Hsep. induction pieces as [|p ps IH]; intros Hne; [contradiction|].
  destruct ps as [|q ps]; [simpl; lia|].
  change (join sep (p :: q :: ps)) with (p ++ sep ++ join sep (q :: ps)).
  rewrite !length_app, Hsep, weight_cons.
  rewrite IH by discriminate. lia.
Qed.

Lemma weight_split (sep s : str) :
  length sep = 2 -> weight (split sep s) = length s + 2.
Proof.
  intros Hsep. rewrite (weight_join sep) by (exact Hsep || apply split_go_nonempty).
  rewrite join_split; [reflexivity|]. destruct sep; [discriminate Hsep | discriminate].
Qed.

(** One round of the sentence loop: it returns when [max_length] is
    positive, keeps the parts put out so far, and keeps the loops'
    progress when [max_length] is at least two. *)
Lemma on_sentence_step (max_length : nat) (st : split_state) (sentence : str) :
  1 <= max_length ->
  exists st',
    on_sentence max_length st sentence = Some st' /\
    (exists more, parts st' = parts st ++ more) /\
    (length sentence <= max_length -> within_limit max_length st ->
     within_limit max_length st') /\
    (forall consumed, 2 <= max_length -> progress max_length st consumed ->
       progress max_length st' (consumed + (length sentence + 2))).
Proof.
  intros Hmax. unfold on_sentence.
  destruct (Nat.ltb_spec max_length (length (current_part st) + length sentence + 2))
    as [Hover|Hfit].
  - destruct (current_part st) as [|c cur] eqn:Hcur; cbn [truthy].
    + destruct (hard_split_chunks (length sentence) max_length sentence (parts st)
                  Hmax (le_n _)) as [chunks [rest [H1 [H2 [H3 H4]]]]].
      rewrite H1. eexists. split; [reflexivity|]. unfold progress, within_limit. cbn [parts current_part].
      split; [exists chunks; reflexivity|]. split.
      * intros _ [Hparts _]. split; [|exact H4].
        apply Forall_app. split; [exact Hparts|].
        eapply Forall_impl; [exact H3|]. intros part Hp. simpl in Hp. lia.
      * intros consumed Hmax2 [Hne | [_ [_ Hzero]]].
        -- left. intros Happ. apply app_eq_nil in Happ as [Hnil _]. contradiction.
        -- rewrite (Hzero Hcur). destruct chunks as [|chunk chunks].
           ++ right. simpl in H2. subst rest. split; [exact H4|]. split; [lia|].
              intros ->. simpl in Hover. lia.
           ++ left. intros Happ. apply app_eq_nil in Happ as [_ Hnil]. discriminate.
    + eexists. split; [reflexivity|]. unfold progress, within_limit. cbn [parts current_part].
      split; [eexists; reflexivity|]. split.
      * intros Hs [Hparts Hlen]. split; [|exact Hs].
        apply Forall_app. split; [exact Hparts|]. constructor; [|constructor].
        pose proof (strip_length (c :: cur)). rewrite Hcur in Hlen. lia.
      * intros consumed _ _. left. intros Happ.
        apply app_eq_nil in Happ as [_ Hnil]. discriminate.
  - eexists. split; [reflexivity|]. unfold progress, within_limit. cbn [parts current_part].
    split; [exists []; rewrite app_nil_r; reflexivity|]. split.
    + intros _ [Hparts _]. split; [exact Hparts|].
      rewrite !length_app. simpl. lia.
    + intros consumed _ [Hne | [Hlen [Hcons _]]]; [left; exact Hne|].
      right. rewrite !length_app. simpl. split; [lia|]. split; [lia|].
      intros Hnil. apply app_eq_nil in Hnil as [_ Hnil].
      apply app_eq_nil in Hnil as [_ Hnil]. discriminate.
Qed.

Lemma for_sentences_steps (max_length : nat) (sentences : list str) (st : split_state) :
  1 <= max_length ->
  exists st',
    for_sentences max_length sentences st = Some st' /\
    (exists more, parts st' = parts st ++ more) /\
    ((forall s, s ∈ sentences -> length s <= max_length) ->
     within_limit max_length st -> within_limit max_length st') /\
    (forall consumed, 2 <= max_length -> progress max_length st consumed ->
       progress max_length st' (consumed + weight sentences)).
Proof.
  intros Hmax. revert st. induction sentences as [|s ss IH]; intros st.
  - exists st. split; [reflexivity|].
    split; [exists []; rewrite app_nil_r; reflexivity|].
    split; [intros _ H; exact H|].
    intros consumed _ H. simpl. rewrite Nat.add_0_r. exact H.
  - destruct (on_sentence_step max_length st s Hmax) as [st1 [H1 [[m1 Hm1] [Hw1 Hp1]]]].
    destruct (IH st1) as [st2 [H2 [[m2 Hm2] [Hw2 Hp2]]]].
    exists st2. cbn [for_sentences]. rewrite H1. split; [exact H2|].
    split; [exists (m1 ++ m2); rewrite Hm2, Hm1, app_assoc; reflexivity|]. split.
    + intros Hall Hst. apply Hw2; [intros x Hx; apply Hall; right; exact Hx|].
      apply Hw1; [apply Hall; left | exact Hst].
    + intros consumed Hmax2 Hst. rewrite weight_cons.
      replace (consumed + (length s + 2 + weight ss))
        with (consumed + (length s + 2) + weight ss) by lia.
      apply Hp2; [exact Hmax2|]. apply Hp1; assumption.
Qed.

Lemma on_paragraph_step (max_length : nat) (st : split_state) (paragraph : str) :
  1 <= max_length ->
  exists st',
    on_paragraph max_length st paragraph = Some st' /\
    (exists more, parts st' = parts st ++ more) /\
    (length paragraph <= max_length -> within_limit max_length st ->
     within_limit max_length st') /\
    (forall consumed, 2 <= max_length -> progress max_length st consumed ->
       progress max_length st' (consumed + (length paragraph + 2))).
Proof.
  intros Hmax. unfold on_paragraph.
  destruct (Nat.ltb_spec max_length (length (current_part st) + length paragraph + 2))
    as [Hover|Hfit].
  - destruct (current_part st) as [|c cur] eqn:Hcur; cbn [truthy].
    + destruct (for_sentences_steps max_length (split (u ". ") paragraph) st Hmax)
        as [st' [H1 [Hm [Hw Hp]]]].
      exists st'. split; [exact H1|]. split; [exact Hm|]. split.
      * intros Hlen Hst. apply Hw; [|exact Hst].
        intros s Hs. etransitivity; [|exact Hlen].
        apply (split_piece_length (u ". ")); [discriminate | exact Hs].
      * intros consumed Hmax2 Hst.
        rewrite <- (weight_split (u ". ") paragraph eq_refl). apply Hp; assumption.
    + eexists. split; [reflexivity|]. unfold progress, within_limit. cbn [parts current_part].
      split; [eexists; reflexivity|]. split.
      * intros Hs [Hparts Hlen]. split; [|exact Hs].
        apply Forall_app. split; [exact Hparts|]. constructor; [|constructor].
        pose proof (strip_length (c :: cur)). rewrite Hcur in Hlen. lia.
      * intros consumed _ _. left. intros Happ.
        apply app_eq_nil in Happ as [_ Hnil]. discriminate.
  - eexists. split; [reflexivity|]. unfold progress, within_limit. cbn [parts current_part].
    split; [exists []; rewrite app_nil_r; reflexivity|]. split.
    + intros _ [Hparts _]. split; [exact Hparts|].
      rewrite !length_app. simpl. lia.
    + intros consumed _ [Hne | [Hlen [Hcons _]]]; [left; exact Hne|].
      right. rewrite !length_app. simpl. split; [lia|]. split; [lia|].
      intros Hnil. apply app_eq_nil in Hnil as [_ Hnil].
      apply app_eq_nil in Hnil as [_ Hnil]. discriminate.
Qed.

Lemma for_paragraphs_steps (max_length : nat) (paragraphs : list str) (st : split_state) :
  1 <= max_length ->
  exists st',
    for_paragraphs max_length paragraphs st = Some st' /\
    (exists more, parts st' = parts st ++ more) /\
    ((forall p, p ∈ paragraphs -> length p <= max_length) ->
     within_limit max_length st -> within_limit max_length st') /\
    (forall consumed, 2 <= max_length -> progress max_length st consumed ->
       progress max_length st' (consumed + weight paragraphs)).
Proof.
  intros Hmax. revert st. induction paragraphs as [|p ps IH]; intros st.
  - exists st. split; [reflexivity|].
    split; [exists []; rewrite app_nil_r; reflexivity|].
    split; [intros _ H; exact H|].
    intros consumed _ H. simpl. rewrite Nat.add_0_r. exact H.
  - destruct (on_paragraph_step max_length st p Hmax) as [st1 [H1 [[m1 Hm1] [Hw1 Hp1]]]].
    destruct (IH st1) as [st2 [H2 [[m2 Hm2] [Hw2 Hp2]]]].
    exists st2. cbn [for_paragraphs]. rewrite H1. split; [exact H2|].
    split; [exists (m1 ++ m2); rewrite Hm2, Hm1, app_assoc; reflexivity|]. split.
    + intros Hall Hst. apply Hw2; [intros x Hx; apply Hall; right; exact Hx|].
      apply Hw1; [apply Hall; left | exact Hst].
    + intros consumed Hmax2 Hst. rewrite weight_cons.
      replace (consumed + (length p + 2 + weight ps))
        with (consumed + (length p + 2) + weight ps) by lia.
      apply Hp2; [exact Hmax2|]. apply Hp1; assumption.
Qed.

End SplitLoops.

Section SplitLongMessageMore.

Import MessageProcessor.

Lemma split_long_message_run (message : str) (max_length : nat) :
  1 <= max_length -> max_length < length message ->
  exists st,
    for_paragraphs max_length (split paragraph_break message)
                   {| parts := []; current_part := [] |} = Some st /\
    _split_long_message message max_length = Some (parts st ++ last_part (current_part st)) /\
    ((forall p, p ∈ split paragraph_break message -> length p <= max_length) ->
     within_limit max_length st) /\
    (2 <= max_length -> progress max_length st (length message + 2)).
Proof.
  intros Hmax Hlong.
  destruct (for_paragraphs_steps max_length (split paragraph_break message)
              {| parts := []; current_part := [] |} Hmax) as [st [Hrun [_ [Hw Hp]]]].
  exists st. split; [exact Hrun|]. split; [|split].
  - unfold _split_long_message.
    assert (Hleb : (length message <=? max_length) = false) by (apply Nat.leb_gt; exact Hlong).
    rewrite Hleb.
    change (split [10%N; 10%N] message) with (split paragraph_break message).
    rewrite Hrun. unfold last_part.
    destruct (truthy (strip (current_part st))); [reflexivity|].
    rewrite app_nil_r. reflexivity.
  - intros Hall. apply Hw; [exact Hall|]. split; [constructor | simpl; lia].
  - intros Hmax2.
    rewrite <- (weight_split paragraph_break message eq_refl).
    apply (Hp 0 Hmax2). right. simpl. repeat split; lia.
Qed.

(** X1.  [_split_long_message] returns for every message when [max_length]
    is at least 1.  With [max_length = 0] the character-level [while] loop
    does not end: on the message ["ab"] it runs out of every amount of
    fuel. *)
Theorem split_long_message_returns (message : str) (max_length : nat) :
  (1 <= max_length -> is_Some (_split_long_message message max_length))
  /\ (forall fuel parts, hard_split fuel 0 (u "ab") parts = None)
  /\ _split_long_message (u "ab") 0 = None.
Proof.
  split; [|split; [|reflexivity]].
  2: { induction fuel as [|fuel IH]; intros parts; [reflexivity|]. apply IH. }
  intros Hmax. destruct (Nat.le_gt_cases (length message) max_length) as [Hshort|Hlong].
  - unfold _split_long_message.
    assert (Hleb : (length message <=? max_length) = true) by (apply Nat.leb_le; exact Hshort).
    rewrite Hleb. eauto.
  - destruct (split_long_message_run message max_length Hmax Hlong) as [st [_ [-> _]]].
    eauto.
Qed.

Lemma split_long_message_returns_witness :
  1 <= 5 /\ is_Some (_split_long_message (u "um. dois. tres") 5).
Proof.
  split; [lia|].
  apply (proj1 (split_long_message_returns (u "um. dois. tres") 5)). lia.
Defined.

Lemma split_long_message_has_part (message : str) (max_length : nat) :
  2 <= max_length -> max_length < length message ->
  exists part parts, _split_long_message message max_length = Some (part :: parts).
Proof.
  intros Hmax Hlong.
  destruct (split_long_message_run message max_length ltac:(lia) Hlong)
    as [st [_ [Hres [_ Hp]]]].
  rewrite Hres. destruct (Hp Hmax) as [Hne | [Hlen [Hcons _]]].
  - destruct (parts st) as [|part rest]; [contradiction|]. eauto.
  - lia.
Qed.

(** X2.  For [max_length] at least 2, a message longer than [max_length]
    is split into at least one part, so [parts[0]] exists; for
    [max_length = 1] a lone paragraph break is split into no part at all. *)
Theorem split_long_message_never_empty (message : str) (max_length : nat) :
  (2 <= max_length -> max_length < length message ->
   exists part parts, _split_long_message message max_length = Some (part :: parts))
  /\ _split_long_message paragraph_break 1 = Some [].
Proof.
  split; [apply split_long_message_has_part | reflexivity].
Qed.

Lemma split_long_message_never_empty_witness :
  2 <= 3 /\ 3 < length (u "a b c d") /\
  exists part parts, _split_long_message (u "a b c d") 3 = Some (part :: parts).
Proof.
  assert (Hlong : 3 < length (u "a b c d")) by (apply Nat.ltb_lt; reflexivity).
  split; [lia|]. split; [exact Hlong|].
  apply (proj1 (split_long_message_never_empty (u "a b c d") 3)); [lia | exact Hlong].
Defined.

(** X3.  When no paragraph of the message is longer than [max_length], no
    part [_split_long_message] returns is longer than [max_length]. *)
Theorem split_parts_within_limit (message : str) (max_length : nat) (parts : list str) :
  1 <= max_length ->
  (forall p, p ∈ split paragraph_break message -> length p <= max_length) ->
  _split_long_message message max_length = Some parts ->
  Forall (fun part => length part <= max_length) parts.
Proof.
  intros Hmax Hall Hres.
  destruct (Nat.le_gt_cases (length message) max_length) as [Hshort|Hlong].
  - unfold _split_long_message in Hres.
    assert (Hleb : (length message <=? max_length) = true) by (apply Nat.leb_le; exact Hshort).
    rewrite Hleb in Hres. injection Hres as <-. constructor; [exact Hshort | constructor].
  - destruct (split_long_message_run message max_length Hmax Hlong)
      as [st [_ [Hres' [Hw _]]]].
    rewrite Hres' in Hres. injection Hres as <-.
    destruct (Hw Hall) as [Hparts Hcur]. apply Forall_app. split; [exact Hparts|].
    unfold last_part. destruct (truthy (strip (current_part st))); [|constructor].
    constructor; [|constructor].
    pose proof (strip_length (current_part st)). lia.
Qed.

Lemma split_parts_within_limit_witness :
  let message := u "ola mundo" ++ paragraph_break ++ u "ate logo" in
  1 <= 12 /\
  (forall p, p ∈ split paragraph_break message -> length p <= 12) /\
  Forall (fun part => length part <= 12) [u "ola mundo"; u "ate logo"].
Proof.
  assert (Hall : forall p,
             p ∈ split paragraph_break (u "ola mundo" ++ paragraph_break ++ u "ate logo") ->
             length p <= 12).
  { intros p Hp. change (p ∈ [u "ola mundo"; u "ate logo"]) in Hp.
    rewrite !elem_of_cons, elem_of_nil in Hp.
    destruct Hp as [-> | [-> | []]]; apply Nat.leb_le; reflexivity. }
  split; [lia|]. split; [exact Hall|].
  apply (split_parts_within_limit (u "ola mundo" ++ paragraph_break ++ u "ate logo") 12);
    [lia | exact Hall | reflexivity].
Defined.

(** X4.  [process_think_message] never fails on [parts[0]]: when Slack
    accepts the messages, an answer of at most 3000 characters is said
    whole, and a longer one is said as the parts of [_split_long_message],
    in order, of which there is at least one. *)
Theorem think_response_posted_in_parts (slack : effect -> option exn) (final_response : str) :
  (forall c, slack c = None) ->
  exists texts,
    post_think_response slack final_response = Some (map Say texts, Return ())
    /\ texts <> []
    /\ (length final_response <= 3000 -> texts = [final_response])
    /\ (3000 < length final_response ->
        _split_long_message final_response 3000 = Some texts).
Proof.
  intros Hslack.
  assert (Hsay : forall texts, say_all slack texts = (map Say texts, None)).
  { induction texts as [|t ts IH]; [reflexivity|].
    cbn [say_all]. rewrite Hslack, IH. reflexivity. }
  unfold post_think_response.
  destruct (Nat.ltb_spec 3000 (length final_response)) as [Hlong|Hshort].
  - destruct (split_long_message_has_part final_response 3000
                ltac:(apply Nat.leb_le; reflexivity) Hlong) as [part [parts Hres]].
    rewrite Hres, Hsay. exists (part :: parts).
    split; [reflexivity|]. split; [discriminate|]. split; [lia | reflexivity].
  - rewrite Hslack. exists [final_response].
    split; [reflexivity|]. split; [discriminate|]. split; [reflexivity | lia].
Qed.

Lemma think_response_posted_in_parts_witness :
  (forall c : effect, (fun _ => @None exn) c = None) /\
  post_think_response (fun _ => None) (u "Resumo: tudo certo.")
  = Some ([Say (u "Resumo: tudo certo.")], Return ()).
Proof.
  split; [reflexivity|].
  destruct (think_response_posted_in_parts (fun _ => None) (u "Resumo: tudo certo.")
              (fun _ => eq_refl)) as [texts [Hpost [_ [Hshort _]]]].
  rewrite Hpost, Hshort; [reflexivity|]. apply Nat.leb_le. reflexivity.
Defined.

End SplitLongMessageMore.

(* ===================================================================== *)
(** * More on the streaming loop: the text *)
(* ===================================================================== *)

Section StreamedText.

Import AgentProcessor.

Ltac quiet_event :=
  cbn [fst snd full_response calls full_text delta_text default from_option id length
       map concat app accumulates];
  rewrite ?app_nil_r; exists []; rewrite ?app_nil_r;
  repeat (split; [reflexivity|]); try reflexivity; try exact I; try (simpl; lia).

Ltac calling_event :=
  cbn [fst snd full_response calls full_text delta_text default from_option id length];
  eexists; split; [reflexivity|];
  cbn [fst snd full_response calls full_text delta_text default from_option id length
       map concat app accumulates];
  rewrite ?app_nil_r; repeat split; try reflexivity; try (simpl; lia).

Lemma on_event_calls (cb : callback) (st : stream_state) (ev : stream_event) :
  exists cs,
    calls (on_event cb st ev).1 = calls st ++ cs /\
    full_response (on_event cb st ev).1 = full_response st ++ concat (map delta_text cs) /\
    concat (map delta_text cs) = default [] (delta_of ev) /\
    length cs = length (omap delta_of [ev]) + length (omap opened_by [ev]) /\
    accumulates (full_response st) cs /\
    (on_event cb st ev).2 = match cs with [] => None | c :: _ => cb c end /\
    length cs <= 1.
Proof.
  change (omap delta_of [ev]) with (match delta_of ev with Some d => [d] | None => [] end).
  change (omap opened_by [ev]) with (match opened_by ev with Some d => [d] | None => [] end).
  destruct ev as [[delta|[delta|]]|item|]; cbn [on_event delta_of opened_by].
  - destruct (truthy delta) eqn:Ht.
    + unfold on_delta, invoke. calling_event.
    + quiet_event.
  - destruct (truthy delta) eqn:Ht.
    + unfold on_delta, invoke. calling_event.
    + quiet_event.
  - quiet_event.
  - destruct (bool_decide (item_type item = u "tool_call_item"));
      [|destruct (bool_decide (item_type item = u "file_search_call"));
        [|destruct (bool_decide (item_type item = u "tool_call_output_item"))]].
    + unfold on_tool, invoke. calling_event.
    + unfold on_tool, invoke. calling_event.
    + destruct (tool_calls st); quiet_event.
    + quiet_event.
  - quiet_event.
Qed.

Lemma accumulates_app (s : str) (cs1 cs2 : list callback_call) :
  accumulates s cs1 -> accumulates (s ++ concat (map delta_text cs1)) cs2 ->
  accumulates s (cs1 ++ cs2).
Proof.
  revert s. induction cs1 as [|c cs1 IH]; intros s H1 H2.
  - simpl in *. rewrite app_nil_r in H2. exact H2.
  - destruct H1 as [Hc H1]. simpl. split; [exact Hc|]. apply IH; [exact H1|].
    rewrite Hc, <- app_assoc. exact H2.
Qed.

Lemma stops_at_first_raise_cons (cb : callback) (c : callback_call)
    (cs : list callback_call) (err : option exn) :
  cb c = None -> stops_at_first_raise cb cs err -> stops_at_first_raise cb (c :: cs) err.
Proof.
  intros Hc. destruct err as [e|]; simpl.
  - intros [before [c' [-> [Hb Hc']]]]. exists (c :: before), c'.
    split; [reflexivity|]. split; [constructor; assumption | exact Hc'].
  - intros H. constructor; assumption.
Qed.

Lemma omap_cons_case {A B} (f : A -> option B) (x : A) (xs : list A) :
  omap f (x :: xs) = match f x with Some y => y :: omap f xs | None => omap f xs end.
Proof. reflexivity. Qed.

Lemma streamed_text_cons (ev : stream_event) (evs : list stream_event) :
  streamed_text (ev :: evs) = default [] (delta_of ev) ++ streamed_text evs.
Proof.
  unfold streamed_text. rewrite omap_cons_case. destruct (delta_of ev); reflexivity.
Qed.

Lemma stream_loop_calls (cb : callback) (evs : list stream_event) (st : stream_state) :
  exists cs,
    calls (stream_loop cb evs st).1 = calls st ++ cs /\
    full_response (stream_loop cb evs st).1 = full_response st ++ concat (map delta_text cs) /\
    accumulates (full_response st) cs /\
    stops_at_first_raise cb cs (stream_loop cb evs st).2 /\
    ((stream_loop cb evs st).2 = None ->
     concat (map delta_text cs) = streamed_text evs /\
     length cs = length (omap delta_of evs) + length (opened_tool_calls evs)).
Proof.
  revert st. induction evs as [|ev evs IH]; intros st.
  - exists []. simpl. rewrite !app_nil_r. repeat split; constructor.
  - cbn [stream_loop].
    destruct (on_event_calls cb st ev)
      as [cs1 [Hcalls [Htext [Hdelta [Hlen [Hacc [Herr Hone]]]]]]].
    destruct (on_event cb st ev) as [st1 err1]. cbn [fst snd] in *.
    destruct cs1 as [|c [|c' cs1]]; [| |simpl in Hone; lia].
    + subst err1. destruct (IH st1) as [cs2 [Hcalls2 [Htext2 [Hacc2 [Hstop2 Hend2]]]]].
      exists cs2. rewrite app_nil_r in Hcalls, Htext. rewrite Hcalls, Htext in *.
      split; [exact Hcalls2|]. split; [exact Htext2|]. split; [exact Hacc2|].
      split; [exact Hstop2|]. intros Hnone. destruct (Hend2 Hnone) as [H1 H2].
      rewrite streamed_text_cons, <- Hdelta. split; [exact H1|].
      unfold opened_tool_calls in *. rewrite !omap_cons_case.
      simpl in Hlen. destruct (delta_of ev), (opened_by ev); simpl in *; lia.
    + destruct err1 as [e|].
      * exists [c]. cbn [fst snd]. split; [exact Hcalls|]. split; [exact Htext|].
        split; [exact Hacc|]. split; [|discriminate].
        exists [], c. split; [reflexivity|]. split; [constructor | symmetry; exact Herr].
      * destruct (IH st1) as [cs2 [Hcalls2 [Htext2 [Hacc2 [Hstop2 Hend2]]]]].
        exists (c :: cs2). split; [rewrite Hcalls2, Hcalls, <- app_assoc; reflexivity|].
        split.
        { rewrite Htext2, Htext. simpl. rewrite !app_nil_r, <- app_assoc. reflexivity. }
        split.
        { apply (accumulates_app _ [c] cs2); [exact Hacc|]. rewrite <- Htext. exact Hacc2. }
        split; [apply stops_at_first_raise_cons; [symmetry; exact Herr | exact Hstop2]|].
        intros Hnone. destruct (Hend2 Hnone) as [H1 H2].
        split.
        { rewrite streamed_text_cons, <- Hdelta, <- H1. simpl. rewrite app_nil_r.
          reflexivity. }
        unfold opened_tool_calls in *. rewrite !omap_cons_case.
        simpl in Hlen. destruct (delta_of ev), (opened_by ev); simpl in *; lia.
Qed.

Lemma process_native_streamed (rt : runtime) (message : str)
    (image_urls : option (list str)) (stream_callback : option callback)
    (result : run_result_streaming) :
  run_streamed rt (make_agent_input message image_urls) = Return result ->
  let cb := default dummy_callback stream_callback in
  let loop := stream_loop cb (events result) initial_state in
  (process_native rt message image_urls stream_callback).2 = calls loop.1 /\
  (forall e, loop.2 = Some e ->
     (process_native rt message image_urls stream_callback).1 = error_response e) /\
  (loop.2 = None -> failure result = None ->
     (process_native rt message image_urls stream_callback).1
     = {| text := final_text (full_response loop.1) (final_output result);
          tools := tool_calls loop.1; token_usage := Some zero_usage |}).
Proof.
  intros Hrun. cbv zeta. unfold process_native. rewrite Hrun.
  destruct (stream_loop (default dummy_callback stream_callback) (events result)
              initial_state) as [st [e|]]; cbn [fst snd].
  - split; [reflexivity|]. split; [|discriminate]. intros e' He. inversion He. reflexivity.
  - split; [destruct (failure result); reflexivity|]. split; [discriminate|].
    intros _ Hfail. rewrite Hfail. reflexivity.
Qed.

Lemma quiet_callback_no_exception (cb : callback) (cs : list callback_call)
    (err : option exn) :
  (forall c, cb c = None) -> stops_at_first_raise cb cs err -> err = None.
Proof.
  intros Hcb Hstop. destruct err as [e|]; [|reflexivity].
  destruct Hstop as [before [c [_ [_ Hc]]]]. rewrite Hcb in Hc. discriminate.
Qed.

(** X5.  On the native path, every call of the stream callback carries the
    text so far: its full text is the full text of the call before it
    followed by its own delta, starting from the empty text.  When the
    callback does not raise, there is one call per non-empty text delta and
    one per tool call opened, and the deltas of the calls, put together,
    are the text streamed. *)
Theorem callback_receives_running_text (rt : runtime) (message : str)
    (image_urls : option (list str)) (stream_callback : option callback)
    (result : run_result_streaming) :
  agent_invoked rt message image_urls = true ->
  run_streamed rt (make_agent_input message image_urls) = Return result ->
  let reply := process_message rt message image_urls stream_callback in
  accumulates [] reply.2
  /\ ((forall c, default dummy_callback stream_callback c = None) ->
      length reply.2
      = length (omap delta_of (events result))
        + length (opened_tool_calls (events result))
      /\ concat (map delta_text reply.2) = streamed_text (events result)).
Proof.
  intros Hagent Hrun. cbv zeta. rewrite (process_message_native _ _ _ _ Hagent).
  destruct (process_native_streamed rt message image_urls stream_callback result Hrun)
    as [Hcalls _].
  destruct (stream_loop_calls (default dummy_callback stream_callback) (events result)
              initial_state) as [cs [Hcs [_ [Hacc [Hstop Hend]]]]].
  cbn [calls full_response initial_state app] in Hcs, Hacc.
  rewrite Hcalls, Hcs. split; [exact Hacc|]. intros Hcb.
  destruct (Hend (quiet_callback_no_exception _ _ _ Hcb Hstop)) as [Hdeltas Hlen].
  split; [exact Hlen | exact Hdeltas].
Qed.

Lemma callback_receives_running_text_witness :
  let result := {| events := sample_events; failure := None;
                   final_output := Some (u "Pronto.") |} in
  let rt := plain_runtime (Return result) in
  let reply := process_message rt (u "como está o clima?") None None in
  accumulates [] reply.2 /\
  length reply.2 = 5 /\
  concat (map delta_text reply.2) = u "Vou pesquisar. Faz 28 graus. Pronto.".
Proof.
  pose proof (callback_receives_running_text
                (plain_runtime (Return {| events := sample_events; failure := None;
                                          final_output := Some (u "Pronto.") |}))
                (u "como está o clima?") None None
                {| events := sample_events; failure := None;
                   final_output := Some (u "Pronto.") |}
                eq_refl eq_refl) as [Hacc Hrest].
  destruct (Hrest (fun _ => eq_refl)) as [Hlen Hdeltas].
  split; [exact Hacc|]. split; [exact Hlen | exact Hdeltas].
Defined.

(** X6.  On the native path, a stream callback that raises is not called
    again: either no call raised, or the calls made end with the first one
    that raised, and then the reply is the error reply for its exception,
    with an empty tools list and zero token usage, whatever tool calls had
    been recorded. *)
Theorem raising_callback_ends_the_stream (rt : runtime) (message : str)
    (image_urls : option (list str)) (cb : callback) (result : run_result_streaming) :
  agent_invoked rt message image_urls = true ->
  run_streamed rt (make_agent_input message image_urls) = Return result ->
  let reply := process_message rt message image_urls (Some cb) in
  Forall (fun c => cb c = None) reply.2
  \/ exists before c e,
       reply.2 = before ++ [c] /\ Forall (fun c' => cb c' = None) before /\
       cb c = Some e /\
       reply.1 = {| text := error_msg e; tools := []; token_usage := Some zero_usage |}.
Proof.
  intros Hagent Hrun. cbv zeta. rewrite (process_message_native _ _ _ _ Hagent).
  destruct (process_native_streamed rt message image_urls (Some cb) result Hrun)
    as [Hcalls [Hraised _]].
  destruct (stream_loop_calls cb (events result) initial_state)
    as [cs [Hcs [_ [_ [Hstop _]]]]].
  cbn [default from_option id] in Hcalls, Hraised.
  cbn [calls initial_state app] in Hcs. rewrite Hcalls, Hcs.
  destruct (stream_loop cb (events result) initial_state).2 as [e|].
  - right. destruct Hstop as [before [c [-> [Hbefore Hc]]]].
    exists before, c, e. split; [reflexivity|]. split; [exact Hbefore|].
    split; [exact Hc|]. apply Hraised. reflexivity.
  - left. exact Hstop.
Qed.

Lemma raising_callback_ends_the_stream_witness :
  let result := {| events := sample_events; failure := None;
                   final_output := Some (u "Pronto.") |} in
  let rt := plain_runtime (Return result) in
  let reply := process_message rt (u "como está o clima?") None
                 (Some raising_on_tool_calls) in
  length reply.2 = 2 /\
  exists before c e,
    reply.2 = before ++ [c] /\
    Forall (fun c' => raising_on_tool_calls c' = None) before /\
    raising_on_tool_calls c = Some e /\
    reply.1 = {| text := error_msg e; tools := []; token_usage := Some zero_usage |}.
Proof.
  pose proof (raising_callback_ends_the_stream
                (plain_runtime (Return {| events := sample_events; failure := None;
                                          final_output := Some (u "Pronto.") |}))
                (u "como está o clima?") None raising_on_tool_calls
                {| events := sample_events; failure := None;
                   final_output := Some (u "Pronto.") |}
                eq_refl eq_refl) as H.
  cbv zeta in *. split; [vm_compute; reflexivity|].
  destruct H as [H | H]; [exfalso | exact H].
  apply Forall_forall with
    (x := {| delta_text := []; full_text := u "Vou pesquisar. ";
             tool_calls_detected :=
               [ {| tool_name := u "web_search";
                    tool_arguments := RawArguments (u "{'q': 'clima'}");
                    type := tool_call_started; output := None |} ] |}) in H.
  - vm_compute in H. discriminate H.
  - vm_compute. right. left.
Defined.

(** X7.  When the stream ends without an exception and the callback does
    not raise, the text of the reply is ["No response generated."] if the
    run has no final output (none, or the empty string), even if text was
    streamed; otherwise it is the text streamed, and the final output only
    when nothing was streamed. *)
Theorem reply_text_of_finished_stream (rt : runtime) (message : str)
    (image_urls : option (list str)) (stream_callback : option callback)
    (result : run_result_streaming) :
  agent_invoked rt message image_urls = true ->
  run_streamed rt (make_agent_input message image_urls) = Return result ->
  failure result = None ->
  (forall c, default dummy_callback stream_callback c = None) ->
  let reply := (process_message rt message image_urls stream_callback).1 in
  let streamed := streamed_text (events result) in
  (truthy (default [] (final_output result)) = false ->
   text reply = u "No response generated.")
  /\ (truthy (default [] (final_output result)) = true -> truthy streamed = true ->
      text reply = streamed)
  /\ (truthy (default [] (final_output result)) = true -> truthy streamed = false ->
      Some (text reply) = final_output result).
Proof.
  intros Hagent Hrun Hfail Hcb. cbv zeta. rewrite (process_message_native _ _ _ _ Hagent).
  destruct (process_native_streamed rt message image_urls stream_callback result Hrun)
    as [_ [_ Hdone]].
  destruct (stream_loop_calls (default dummy_callback stream_callback) (events result)
              initial_state) as [cs [_ [Htext [_ [Hstop Hend]]]]].
  pose proof (quiet_callback_no_exception _ _ _ Hcb Hstop) as Hnone.
  destruct (Hend Hnone) as [Hdeltas _].
  rewrite (Hdone Hnone Hfail). cbn [text]. rewrite Htext, Hdeltas.
  cbn [full_response initial_state app]. unfold final_text.
  destruct (final_output result) as [o|]; cbn [default from_option id].
  - split; [intros ->; reflexivity|]. split.
    + intros -> ->. reflexivity.
    + intros -> ->. reflexivity.
  - split; [reflexivity|]. split; discriminate.
Qed.

Lemma reply_text_of_finished_stream_witness :
  let result := {| events := sample_events; failure := None; final_output := None |} in
  let rt := plain_runtime (Return result) in
  streamed_text sample_events = u "Vou pesquisar. Faz 28 graus. Pronto." /\
  text (process_message rt (u "como está o clima?") None None).1
  = u "No response generated.".
Proof.
  split; [reflexivity|].
  exact (proj1 (reply_text_of_finished_stream
                  (plain_runtime (Return {| events := sample_events; failure := None;
                                            final_output := None |}))
                  (u "como está o clima?") None None
                  {| events := sample_events; failure := None; final_output := None |}
                  eq_refl eq_refl eq_refl (fun _ => eq_refl)) eq_refl).
Defined.

(** With a [count_tokens] that returns, the count with the calls is the
    sum [total_tokens_of] gives. *)
Lemma exchange_tokens_returns (count : str -> Z) (response : response)
    (context_input : str) :
  MessageProcessor.exchange_tokens (fun s => Return (count s)) response context_input
  = Return (MessageProcessor.total_tokens_of count response context_input).
Proof. reflexivity. Qed.

(** X8.  Whenever [process_message] takes the native path, the reply
    reports a token usage of zero, whether the run succeeded, failed or was
    stopped by the guardrail.  [MessageProcessor] still calls [count_tokens]
    on the context and then on the text of the reply (the calls are the
    default arguments of [dict.get]): an exception of either call leaves
    the block, and when both return, whatever they return, the tokens
    counted for the exchange ([input] plus [output]) are zero. *)
Theorem native_exchange_adds_no_tokens (count_tokens : str -> result Z) (rt : runtime)
    (message : str) (image_urls : option (list str)) (stream_callback : option callback)
    (context_input : str) :
  agent_invoked rt message image_urls = true ->
  let reply := (process_message rt message image_urls stream_callback).1 in
  let counted := MessageProcessor.exchange_tokens count_tokens reply context_input in
  token_usage reply = Some zero_usage
  /\ (forall e, count_tokens context_input = Raise e -> counted = Raise e)
  /\ (forall n e, count_tokens context_input = Return n ->
                  count_tokens (text reply) = Raise e -> counted = Raise e)
  /\ (forall n m, count_tokens context_input = Return n ->
                  count_tokens (text reply) = Return m -> counted = Return 0%Z).
Proof.
  intros Hagent. cbv zeta. rewrite (process_message_native _ _ _ _ Hagent).
  assert (Husage : token_usage (process_native rt message image_urls stream_callback).1
                   = Some zero_usage).
  { unfold process_native.
    destruct (run_streamed rt (make_agent_input message image_urls)) as [result|[m|t m]];
      try reflexivity.
    destruct (stream_loop (default dummy_callback stream_callback) (events result)
                initial_state) as [st [e|]]; [reflexivity|].
    destruct (failure result); reflexivity. }
  split; [exact Husage|]. unfold MessageProcessor.exchange_tokens. rewrite Husage.
  split; [intros e ->; reflexivity|].
  split; [intros n e -> ->; reflexivity | intros n m -> ->; reflexivity].
Qed.

(** A [count_tokens] that counts code points, and one that raises on the
    context. *)
Lemma native_exchange_adds_no_tokens_witness :
  let result := {| events := sample_events; failure := None;
                   final_output := Some (u "Pronto.") |} in
  let reply := (process_message (plain_runtime (Return result))
                  (u "como está o clima?") None None).1 in
  MessageProcessor.exchange_tokens (fun s => Return (Z.of_nat (length s))) reply
    (u "como está o clima?") = Return 0%Z
  /\ MessageProcessor.exchange_tokens
       (fun _ => Raise (OtherException (u "ValueError") (u "disallowed special token")))
       reply (u "como está o clima?")
     = Raise (OtherException (u "ValueError") (u "disallowed special token")).
Proof.
  cbv zeta. split.
  - destruct (native_exchange_adds_no_tokens (fun s => Return (Z.of_nat (length s)))
                (plain_runtime (Return {| events := sample_events; failure := None;
                                          final_output := Some (u "Pronto.") |}))
                (u "como está o clima?") None None (u "como está o clima?") eq_refl)
      as [_ [_ [_ Hboth]]].
    exact (Hboth _ _ eq_refl eq_refl).
  - destruct (native_exchange_adds_no_tokens
                (fun _ => Raise (OtherException (u "ValueError")
                                   (u "disallowed special token")))
                (plain_runtime (Return {| events := sample_events; failure := None;
                                          final_output := Some (u "Pronto.") |}))
                (u "como está o clima?") None None (u "como está o clima?") eq_refl)
      as [_ [Hfirst _]].
    exact (Hfirst _ eq_refl).
Defined.

End StreamedText.

(* ===================================================================== *)
(** * More on the keyword routing *)
(* ===================================================================== *)

Section RoutingMore.

Import ZapierMcps.

(** Matching is kept when text is added around the message. *)
Lemma any_keyword_in_app (kws : list str) (pre s post : str) :
  any_keyword_in kws s = true -> any_keyword_in kws (pre ++ s ++ post) = true.
Proof.
  rewrite !any_keyword_in_true. intros [kw [Hin Hkw]].
  exists kw. split; [exact Hin | apply str_in_app; exact Hkw].
Qed.

Lemma first_match_extension (table : list (str * mcp_config)) (order : list str)
    (ml ml' : str) (name : str) (cfg : mcp_config) :
  (forall kws, any_keyword_in kws ml = true -> any_keyword_in kws ml' = true) ->
  (forall n, n ∈ order -> is_Some (dict_get table n)) ->
  StronglySorted (by_priority table) order ->
  first_match table order ml = Return (Some (name, cfg)) ->
  exists name' cfg',
    first_match table order ml' = Return (Some (name', cfg')) /\
    (priority cfg' <= priority cfg)%Z.
Proof.
  intros Hmono. induction order as [|n order IH]; intros Hall Hsorted Hm; [discriminate|].
  apply StronglySorted_inv in Hsorted as [Hsorted Hn].
  cbn [first_match] in *.
  destruct (Hall n ltac:(left)) as [c Hc]. rewrite Hc in *.
  assert (Hall' : forall n0, n0 ∈ order -> is_Some (dict_get table n0))
    by (intros n0 H0; apply Hall; right; exact H0).
  destruct (any_keyword_in (keywords c) ml') eqn:Hml'.
  - exists n, c. split; [reflexivity|].
    destruct (any_keyword_in (keywords c) ml) eqn:Hml.
    + inversion Hm; subst. lia.
    + pose proof (first_match_spec table order ml Hall') as Hspec.
      rewrite Hm in Hspec. destruct Hspec as [Hget [_ [before [after [-> _]]]]].
      rewrite Forall_forall in Hn. apply (Hn name); [|exact Hc|exact Hget].
      apply elem_of_app. right. left.
  - destruct (any_keyword_in (keywords c) ml) eqn:Hml.
    + rewrite (Hmono _ Hml) in Hml'. discriminate.
    + apply IH; assumption.
Qed.

Ltac by_table :=
  let c1 := fresh "c" in let c2 := fresh "c" in
  let H1 := fresh "H" in let H2 := fresh "H" in
  intros c1 c2 H1 H2; vm_compute in H1, H2; inversion H1; inversion H2; subst;
  vm_compute; discriminate.

Lemma priority_order_sorted : StronglySorted (by_priority ZAPIER_MCPS) PRIORITY_ORDER.
Proof.
  unfold PRIORITY_ORDER.
  repeat (apply SSorted_cons;
          [|repeat (apply List.Forall_cons; [by_table|]); apply List.Forall_nil]).
  apply SSorted_nil.
Qed.

(** X9.  Adding text before or after a message never routes it to an
    integration of lower priority: if [get_mcp_by_keywords] picks an
    integration for a message, it picks one for every message that contains
    it, and that one has the same or a smaller ["priority"] number. *)
Theorem more_text_never_lowers_priority (message pre post : str) (name : str)
    (cfg : mcp_config) :
  get_mcp_by_keywords message = Return (Some (name, cfg)) ->
  exists name' cfg',
    get_mcp_by_keywords (pre ++ message ++ post) = Return (Some (name', cfg')) /\
    (priority cfg' <= priority cfg)%Z.
Proof.
  unfold get_mcp_by_keywords. rewrite !lower_app.
  apply first_match_extension.
  - intros kws. apply any_keyword_in_app.
  - apply priority_order_in_table.
  - apply priority_order_sorted.
Qed.

Lemma more_text_never_lowers_priority_witness :
  exists name' cfg',
    get_mcp_by_keywords ([] ++ agenda_message ++ u " e o link do drive")
    = Return (Some (name', cfg')) /\
    (priority cfg' <= 5)%Z.
Proof.
  apply (more_text_never_lowers_priority agenda_message [] (u " e o link do drive")
           (u "mcpGoogleCalendar")
           {| name := u "Zapier mcpGoogleCalendar";
              server_label := u "zapier-mcpgooglecalendar";
              keywords := [u "calendar"]; priority := 5 |}).
  vm_compute. reflexivity.
Defined.

End RoutingMore.

(* ===================================================================== *)
(** * Tool calls inferred from the text of a response *)
(* ===================================================================== *)

Section InferredTools.

Import ZapierMcps AgentProcessor.

Lemma mcp_indicators_names (table : list (str * mcp_config)) (text_lower : str) :
  map inferred_tool_name (mcp_indicators table text_lower)
  `sublist_of` map (fun entry => u "mcp_" ++ entry.1) table.
Proof.
  induction table as [|[k c] table IH]; [constructor|]. cbn [mcp_indicators map fst].
  destruct (any_keyword_in (keywords c) text_lower).
  - cbn [map inferred inferred_tool_name]. apply sublist_skip. exact IH.
  - apply sublist_cons. exact IH.
Qed.

Lemma optional_singleton_sublist {A} (b : bool) (x : A) :
  (if b then [x] else []) `sublist_of` [x].
Proof. destruct b; [reflexivity | apply sublist_nil_l]. Qed.

Lemma inferable_names_nodup : NoDup inferable_names.
Proof. apply (bool_decide_unpack _). vm_compute. exact I. Qed.

(** X10.  The tool names [extract_tool_calls_from_response] reports are
    taken, in this order and without repetition, from [web_search],
    [file_search], [image_generation] and [mcp_<key>] for the keys of
    [ZAPIER_MCPS]: at most 11 records, each of type ["inferred"]. *)
Theorem inferred_tools_are_distinct_known_names (response_text : str) :
  let tool_calls := extract_tool_calls_from_response response_text in
  map inferred_tool_name tool_calls `sublist_of` inferable_names
  /\ NoDup (map inferred_tool_name tool_calls)
  /\ length tool_calls <= 11
  /\ Forall (fun t => inferred_type t = u "inferred") tool_calls.
Proof.
  cbv zeta.
  assert (Hsub : map inferred_tool_name (extract_tool_calls_from_response response_text)
                 `sublist_of` inferable_names).
  { unfold extract_tool_calls_from_response, inferable_names. rewrite !map_app.
    change [u "web_search"; u "file_search"; u "image_generation"]
      with ([u "web_search"] ++ [u "file_search"] ++ [u "image_generation"]).
    rewrite <- !app_assoc.
    repeat (apply sublist_app;
            [match goal with
             | |- map _ (if ?b then _ else _) `sublist_of` _ => destruct b; simpl;
                 [reflexivity | apply sublist_nil_l]
             end|]).
    apply mcp_indicators_names. }
  split; [exact Hsub|]. split; [|split].
  - eapply sublist_NoDup; [exact inferable_names_nodup | exact Hsub].
  - apply sublist_length in Hsub. rewrite length_map in Hsub. exact Hsub.
  - unfold extract_tool_calls_from_response. rewrite !Forall_app.
    repeat split;
      try match goal with
          | |- Forall _ (if ?b then _ else _) =>
            destruct b; repeat constructor
          end.
    generalize (lower response_text) as tl. intros tl.
    induction ZAPIER_MCPS as [|[k c] table IH]; [constructor|]. cbn [mcp_indicators].
    destruct (any_keyword_in (keywords c) tl); [constructor; [reflexivity|]|]; exact IH.
Qed.

Lemma dict_get_key {V} (table : list (str * V)) (key : str) (v : V) :
  dict_get table key = Some v -> key ∈ map fst table.
Proof.
  induction table as [|[k c] table IH]; [discriminate|]. cbn [dict_get map fst].
  destruct (bool_decide_reflect (k = key)) as [->|Hne]; [left | right; auto].
Qed.

(** With distinct keys, the loop over the items reports an integration
    exactly when the table has it and one of its keywords occurs. *)
Lemma mcp_indicators_spec (table : list (str * mcp_config)) (text_lower key : str) :
  NoDup (map fst table) ->
  inferred (u "mcp_" ++ key) ∈ mcp_indicators table text_lower
  <-> matches table text_lower key.
Proof.
  unfold matches. induction table as [|[k c] table IH]; intros Hnodup.
  - split; [intros H; inversion H | intros [cfg [H _]]; discriminate].
  - cbn [map fst] in Hnodup. apply NoDup_cons in Hnodup as [Hk Hnodup].
    specialize (IH Hnodup). cbn [mcp_indicators dict_get].
    destruct (bool_decide_reflect (k = key)) as [->|Hne].
    + assert (Hrest : inferred (u "mcp_" ++ key) ∉ mcp_indicators table text_lower).
      { intros Hin. apply IH in Hin as [cfg [Hget _]].
        apply Hk. eapply dict_get_key. exact Hget. }
      destruct (any_keyword_in (keywords c) text_lower) eqn:Hany.
      * split; [intros _; exists c; split; [reflexivity | exact Hany] | intros _; left].
      * split; [intros Hin; contradiction|]. intros [cfg [Hget Hcfg]].
        inversion Hget; subst. rewrite Hany in Hcfg. discriminate.
    + rewrite <- IH. destruct (any_keyword_in (keywords c) text_lower); [|reflexivity].
      rewrite elem_of_cons. split; [|right; assumption].
      intros [Heq | Hin]; [|exact Hin]. exfalso. apply Hne.
      unfold inferred in Heq. inversion Heq. congruence.
Qed.

Lemma zapier_keys_nodup : NoDup (map fst ZAPIER_MCPS).
Proof. apply (bool_decide_unpack _). vm_compute. exact I. Qed.

Lemma zapier_keys_in_priority_order (key : str) :
  key ∈ map fst ZAPIER_MCPS -> key ∈ PRIORITY_ORDER.
Proof. intros H. exact H. Qed.

Lemma inferred_mcp_spec (response_text key : str) :
  inferred (u "mcp_" ++ key) ∈ extract_tool_calls_from_response response_text
  <-> matches ZAPIER_MCPS (lower response_text) key.
Proof.
  rewrite <- (mcp_indicators_spec _ _ _ zapier_keys_nodup).
  unfold extract_tool_calls_from_response. rewrite !elem_of_app.
  split; [|tauto]. intros [H | [H | [H | H]]]; [| | |exact H]; exfalso;
    match type of H with
    | _ ∈ (if ?b then _ else _) => destruct b
    end;
    try (inversion H; fail);
    apply list_elem_of_singleton in H; unfold inferred in H; inversion H.
Qed.

(** X11.  [extract_tool_calls_from_response] and [get_mcp_by_keywords]
    agree: the integration the router picks for a text is among the tools
    inferred from the same text, and when the router picks none, no
    [mcp_<key>] tool is inferred. *)
Theorem routed_integration_is_inferred (text : str) :
  match get_mcp_by_keywords text with
  | Return (Some (name, cfg)) =>
    inferred (u "mcp_" ++ name) ∈ extract_tool_calls_from_response text
  | Return None =>
    forall key, inferred (u "mcp_" ++ key) ∉ extract_tool_calls_from_response text
  | Raise _ => False
  end.
Proof.
  unfold get_mcp_by_keywords.
  pose proof (first_match_spec ZAPIER_MCPS PRIORITY_ORDER (lower text)
                priority_order_in_table) as H.
  destruct (first_match ZAPIER_MCPS PRIORITY_ORDER (lower text))
    as [[[name cfg]|]|e]; [| |exact H].
  - destruct H as [Hget [Hany _]]. apply inferred_mcp_spec. exists cfg. split; assumption.
  - intros key Hin. apply inferred_mcp_spec in Hin. apply (H key); [|exact Hin].
    destruct Hin as [cfg [Hget _]]. apply zapier_keys_in_priority_order.
    eapply dict_get_key. exact Hget.
Qed.

(** X12.  [web_search] is inferred exactly when ["search"] occurs in the
    lower-cased text (the test for ["web search"] adds nothing), so every
    text that mentions ["file search"] is credited with a web search as
    well as a file search. *)
Theorem file_search_mention_infers_web_search (response_text : str) :
  let tool_calls := extract_tool_calls_from_response response_text in
  (inferred (u "web_search") ∈ tool_calls
   <-> str_in (u "search") (lower response_text) = true)
  /\ (str_in (u "file search") (lower response_text) = true ->
      inferred (u "web_search") ∈ tool_calls /\ inferred (u "file_search") ∈ tool_calls).
Proof.
  cbv zeta.
  assert (Hweb : str_in (u "web search") (lower response_text) = true ->
                 str_in (u "search") (lower response_text) = true).
  { apply str_in_trans. reflexivity. }
  assert (Hfile : str_in (u "file search") (lower response_text) = true ->
                  str_in (u "search") (lower response_text) = true).
  { apply str_in_trans. reflexivity. }
  unfold extract_tool_calls_from_response. split.
  - rewrite !elem_of_app. split.
    + intros [H | [H | [H | H]]].
      * destruct (str_in (u "web search") (lower response_text)) eqn:H1;
          [apply Hweb; reflexivity|].
        destruct (str_in (u "search") (lower response_text)); [reflexivity|].
        inversion H.
      * exfalso. destruct (_ || _); [|inversion H].
        apply list_elem_of_singleton in H. inversion H.
      * exfalso. destruct (_ && _); [|inversion H].
        apply list_elem_of_singleton in H. inversion H.
      * exfalso. revert H. generalize (lower response_text) as tl. intros tl.
        induction ZAPIER_MCPS as [|[k c] table IH]; [intros H; inversion H|].
        cbn [mcp_indicators]. destruct (any_keyword_in (keywords c) tl); [|exact IH].
        rewrite elem_of_cons. intros [H | H]; [inversion H | exact (IH H)].
    + intros H. left. rewrite H, orb_true_r. left.
  - intros H. rewrite (Hfile H), H, orb_true_r. cbn [orb]. rewrite !elem_of_app.
    split; [left; left | right; left; left].
Qed.

End InferredTools.

(* ===================================================================== *)
(** * More on the processed set *)
(* ===================================================================== *)

Section DedupMore.

Import EventHandlers.

Lemma discard_all_difference (old_messages : list str) (processed : gset str) :
  discard_all processed old_messages = processed ∖ list_to_set old_messages.
Proof.
  unfold discard_all. revert processed.
  induction old_messages as [|m ms IH]; intros processed; simpl.
  - set_solver.
  - rewrite IH. set_solver.
Qed.

Lemma discard_all_size (old_messages : list str) (processed : gset str) :
  NoDup old_messages -> (forall k, k ∈ old_messages -> k ∈ processed) ->
  size (discard_all processed old_messages) = size processed - length old_messages.
Proof.
  intros Hnodup Hin. rewrite discard_all_difference.
  assert (Hsub : list_to_set (C := gset str) old_messages ⊆ processed).
  { intros k Hk. apply elem_of_list_to_set in Hk. apply Hin. exact Hk. }
  pose proof (size_union_alt (list_to_set (C := gset str) old_messages) processed) as Hu.
  assert (Heq : list_to_set (C := gset str) old_messages ∪ processed = processed)
    by set_solver.
  rewrite Heq in Hu. rewrite size_list_to_set in Hu by exact Hnodup. lia.
Qed.

Variable set_order : gset str -> list str.

Lemma set_order_length (s : gset str) :
  enumerates set_order -> length (set_order s) = size s.
Proof.
  intros Henum. destruct (Henum s) as [Hnodup Hin].
  rewrite <- (size_list_to_set (C := gset str) (set_order s) Hnodup).
  f_equal. apply set_eq. intros k. rewrite elem_of_list_to_set. apply Hin.
Qed.

(** Pruning a set of more than 10000 keys removes exactly 1000 of them. *)
Lemma prune_size (s : gset str) :
  enumerates set_order ->
  size (prune set_order s) = if (10000 <? Z.of_nat (size s))%Z then size s - 1000 else size s.
Proof.
  intros Henum. unfold prune.
  destruct (Z.ltb_spec 10000 (Z.of_nat (size s))) as [Hbig|Hsmall]; [|reflexivity].
  destruct (Henum s) as [Hnodup Hin].
  rewrite discard_all_size.
  - rewrite length_take, (set_order_length s Henum). lia.
  - eapply sublist_NoDup; [exact Hnodup | apply sublist_take].
  - intros k Hk. apply Hin. eapply subseteq_take. exact Hk.
Qed.

Lemma prune_subseteq (s : gset str) : prune set_order s ⊆ s.
Proof.
  unfold prune. destruct (10000 <? Z.of_nat (size s))%Z; [|reflexivity].
  rewrite discard_all_difference. set_solver.
Qed.

Lemma handle_app_mention_events_size (processed : gset str) (d : delivery) :
  enumerates set_order ->
  (Z.of_nat (size processed) <= 10000)%Z ->
  (Z.of_nat (size (handle_app_mention_events set_order processed d).1) <= 10000)%Z.
Proof.
  intros Henum Hsize.
  destruct (accepted (app_mention, d)) eqn:Hacc;
    [destruct (decide (message_key (event d) ∈ processed)) as [Hin|Hnew]|].
  - pose proof (handle_skip set_order processed (app_mention, d) (or_intror Hin)) as H.
    unfold handle in H. cbn [fst snd] in H. rewrite H. exact Hsize.
  - destruct (handle_new set_order processed (app_mention, d) Hacc Hnew) as [out H].
    unfold handle, inserted in H. cbn [fst snd] in H. rewrite H. cbn [fst].
    rewrite (prune_size _ Henum).
    assert (Hs : size (processed ∪ {[ message_key (event d) ]}) = S (size processed)).
    { rewrite size_union by set_solver. rewrite size_singleton. lia. }
    rewrite Hs. destruct (Z.ltb_spec 10000 (Z.of_nat (S (size processed)))); lia.
  - pose proof (handle_skip set_order processed (app_mention, d) (or_introl Hacc)) as H.
    unfold handle in H. cbn [fst snd] in H. rewrite H. exact Hsize.
Qed.

(** X13.  The mention handler keeps the processed set within 10000 keys:
    starting from at most 10000 keys, a run of mentions never leaves more
    than 10000 in the set; and a new mention arriving at a set of exactly
    10000 keys leaves 9001, the pruning having removed 1000 keys.  [list(s)]
    is taken to list each element of the set once. *)
Theorem mentions_keep_the_processed_set_bounded
    (deliveries : list (subscription * delivery)) (processed : gset str) :
  enumerates set_order ->
  Forall (fun sd => sd.1 = app_mention) deliveries ->
  (Z.of_nat (size processed) <= 10000)%Z ->
  (Z.of_nat (size (run set_order processed deliveries).1) <= 10000)%Z
  /\ (forall d, size processed = Z.to_nat 10000 ->
       is_Some (handle_app_mention_events set_order processed d).2 ->
       size (handle_app_mention_events set_order processed d).1 = Z.to_nat 9001).
Proof.
  intros Henum Hall Hsize. split.
  - revert processed Hsize.
    induction Hall as [|[sub d] ds Hsub _ IH]; intros processed Hsize; [exact Hsize|].
    cbn [fst] in Hsub. subst sub. cbn [run].
    pose proof (handle_app_mention_events_size processed d Henum Hsize) as Hstep.
    unfold handle at 1. cbn [fst snd].
    destruct (handle_app_mention_events set_order processed d) as [processed' out].
    cbn [fst] in Hstep. specialize (IH processed' Hstep).
    destruct (run set_order processed' ds) as [final outs]. exact IH.
  - intros d Hfull Hout.
    apply (handle_dispatch_iff set_order processed (app_mention, d)) in Hout
      as [Hacc Hnew].
    destruct (handle_new set_order processed (app_mention, d) Hacc Hnew) as [out H].
    unfold handle, inserted in H. cbn [fst snd] in H. rewrite H. cbn [fst].
    rewrite (prune_size _ Henum).
    assert (Hs : size (processed ∪ {[ message_key (event d) ]}) = S (size processed)).
    { rewrite size_union by set_solver. rewrite size_singleton. lia. }
    rewrite Hs, Hfull.
    destruct (Z.ltb_spec 10000 (Z.of_nat (S (Z.to_nat 10000)))); lia.
Qed.

(** X14.  In direct messages nothing is pruned: a run of deliveries to the
    message handler hands no key on twice, however long it is, every key
    handed on was not in the set before, and the set grows by exactly the
    keys handed on. *)
Theorem direct_messages_never_processed_twice
    (deliveries : list (subscription * delivery)) (processed : gset str) :
  Forall (fun sd => sd.1 = message) deliveries ->
  let keys := processed_keys deliveries (run set_order processed deliveries).2 in
  NoDup keys
  /\ (forall k, k ∈ keys -> k ∉ processed)
  /\ (run set_order processed deliveries).1 = processed ∪ list_to_set keys
  /\ size (run set_order processed deliveries).1 = size processed + length keys.
Proof.
  intros Hall. revert processed.
  induction Hall as [|[sub d] ds Hsub _ IH]; intros processed.
  - simpl. split; [constructor|]. split; [intros k H; inversion H|].
    split; [set_solver | lia].
  - cbn [fst] in Hsub. subst sub. cbn [run].
    destruct (accepted (message, d)) eqn:Hacc;
      [destruct (decide (message_key (event d) ∈ processed)) as [Hin|Hnew]|].
    + rewrite (handle_skip set_order processed (message, d) (or_intror Hin)).
      specialize (IH processed).
      destruct (run set_order processed ds) as [final outs]. exact IH.
    + destruct (handle_new set_order processed (message, d) Hacc Hnew) as [out ->].
      unfold inserted. cbn [fst snd].
      specialize (IH (processed ∪ {[ message_key (event d) ]})).
      destruct (run set_order (processed ∪ {[ message_key (event d) ]}) ds)
        as [final outs].
      cbn [fst snd processed_keys] in *. destruct IH as [H1 [H2 [H3 H4]]].
      split; [apply NoDup_cons; split;
              [intros Hk; apply (H2 _ Hk); set_solver | exact H1]|].
      split.
      { intros k Hk. apply elem_of_cons in Hk as [-> | Hk]; [exact Hnew|].
        specialize (H2 k Hk). set_solver. }
      split; [rewrite H3; set_solver|].
      rewrite H4. rewrite size_union by set_solver. rewrite size_singleton.
      cbn [length]. lia.
    + rewrite (handle_skip set_order processed (message, d) (or_introl Hacc)).
      specialize (IH processed).
      destruct (run set_order processed ds) as [final outs]. exact IH.
Qed.

(** X15.  An event delivered to both subscriptions is handed on by at most
    one of the two handlers: when the message handler hands it on (which it
    does only in a direct-message channel), the mention handler skips it and
    leaves its set as it is.  Both handlers are taken to get the same answer
    about the channel. *)
Theorem event_answered_by_one_handler_only
    (processed processed' : gset str) (d : delivery) :
  is_Some (handle_message_events processed d).2 ->
  (handle_app_mention_events set_order processed' d) = (processed', None).
Proof.
  intros Hmsg.
  apply (handle_dispatch_iff set_order processed (message, d)) in Hmsg as [Hacc _].
  apply (handle_skip set_order processed' (app_mention, d)). left.
  unfold accepted in *. cbn [fst snd] in *.
  apply andb_true_iff in Hacc as [-> _]. cbn [negb]. apply andb_false_r.
Qed.

End DedupMore.

Section DedupMoreExamples.

Import EventHandlers.

Lemma elements_enumerates : enumerates elements.
Proof.
  intros s. split; [apply NoDup_elements | intros k; apply elem_of_elements].
Qed.

Lemma mentions_keep_the_processed_set_bounded_witness :
  enumerates elements /\
  (Z.of_nat (size (∅ : gset str)) <= 10000)%Z /\
  (Z.of_nat (size (run elements ∅ [(app_mention, sample_mention);
                                    (app_mention, sample_mention)]).1) <= 10000)%Z.
Proof.
  assert (Hsize : (Z.of_nat (size (∅ : gset str)) <= 10000)%Z)
    by (rewrite size_empty; lia).
  split; [exact elements_enumerates|]. split; [exact Hsize|].
  apply (mentions_keep_the_processed_set_bounded elements _ ∅ elements_enumerates);
    [repeat constructor | exact Hsize].
Defined.

Lemma direct_messages_never_processed_twice_witness :
  let deliveries := [(message, sample_direct_message); (message, sample_direct_message)] in
  processed_keys deliveries (run elements ∅ deliveries).2
  = [message_key (event sample_direct_message)] /\
  NoDup (processed_keys deliveries (run elements ∅ deliveries).2).
Proof.
  split; [vm_compute; reflexivity|].
  apply (direct_messages_never_processed_twice elements
           [(message, sample_direct_message); (message, sample_direct_message)] ∅).
  repeat constructor.
Defined.

Lemma event_answered_by_one_handler_only_witness :
  is_Some (handle_message_events ∅ sample_direct_message).2 /\
  handle_app_mention_events elements ∅ sample_direct_message = (∅, None).
Proof.
  assert (H : is_Some (handle_message_events ∅ sample_direct_message).2).
  { apply (handle_dispatch_iff elements ∅ (message, sample_direct_message)).
    split; [reflexivity | apply not_elem_of_empty]. }
  split; [exact H|].
  exact (event_answered_by_one_handler_only elements ∅ ∅ sample_direct_message H).
Defined.

End DedupMoreExamples.

(* ===================================================================== *)
(** * The pending [+think] message *)
(* ===================================================================== *)

Section ThinkTheorems.

Import ThinkCommand.

Variable slack : call -> option exn.
Variable conversations_replies : option str -> option str -> result (list thread_message).
Variable is_channel_allowed : str -> str -> bool.

Lemma think_command_stores (st : pending) (text : str)
    (channel_id user_id thread_ts : option str) :
  slack (say_selection thread_ts) = None ->
  truthy (strip (drop 6 text)) = true ->
  _handle_think_command slack conversations_replies st text channel_id user_id thread_ts
  = ({| _pending_think_message := Some (strip (drop 6 text));
        _pending_think_history := _get_thread_history conversations_replies
                                    channel_id thread_ts |},
     [say_selection thread_ts], Return ()).
Proof.
  intros Hquiet Htext. unfold _handle_think_command. rewrite Htext. cbn [negb].
  rewrite Hquiet. reflexivity.
Qed.

Lemma think_selection_processes (st : pending) (message selected_value : str)
    (channel_id user_id message_ts : str) :
  (forall c, slack c = None) ->
  is_channel_allowed channel_id user_id = true ->
  _pending_think_message st = Some message -> truthy message = true ->
  handle_think_selection slack is_channel_allowed st selected_value channel_id user_id
    message_ts
  = (cleared,
     [chat_update channel_id message_ts
        (if bool_decide (selected_value = u "value-0")
         then u "✨ Reformulando prompt..." else u "🧠 Analisando profundamente...");
      process_think_message message channel_id user_id message_ts
        (bool_decide (selected_value = u "value-0"))
        (if bool_decide (selected_value = u "value-0")
         then Some (_pending_think_history st) else None)],
     Return ()).
Proof.
  intros Hquiet Hallowed Hmsg Htruthy. unfold handle_think_selection.
  rewrite Hallowed, Hmsg. cbn [negb default from_option id]. rewrite Htruthy.
  cbn [negb]. rewrite !Hquiet. reflexivity.
Qed.

Lemma think_selection_expired (st : pending) (selected_value : str)
    (channel_id user_id message_ts : str) :
  (forall c, slack c = None) ->
  is_channel_allowed channel_id user_id = true ->
  truthy (default [] (_pending_think_message st)) = false ->
  handle_think_selection slack is_channel_allowed st selected_value channel_id user_id
    message_ts
  = (st, [chat_update channel_id message_ts
            (u "❌ Sessão expirada. Tente novamente com +think.")], Return ()).
Proof.
  intros Hquiet Hallowed Hmsg. unfold handle_think_selection.
  rewrite Hallowed, Hmsg. cbn [negb]. rewrite Hquiet. reflexivity.
Qed.

(** X16.  The pending [+think] message is one slot for all users and
    channels: after two [+think] commands, the second with a message, a
    selection by any user in any allowed channel processes the message of
    the second command, with the thread history read for the second
    command, in the channel of the selection; the slot is then cleared, and
    the next selection is answered with the expiry notice.  No call is
    taken to raise. *)
Theorem pending_think_message_is_shared
    (st : pending) (text1 text2 : str)
    (channel1 user1 ts1 channel2 user2 ts2 : option str)
    (selected_value channel3 user3 ts3 : str) :
  (forall c, slack c = None) ->
  truthy (strip (drop 6 text2)) = true ->
  is_channel_allowed channel3 user3 = true ->
  let st1 := (_handle_think_command slack conversations_replies st text1
                channel1 user1 ts1).1.1 in
  let st2 := (_handle_think_command slack conversations_replies st1 text2
                channel2 user2 ts2).1.1 in
  let improve_prompt := bool_decide (selected_value = u "value-0") in
  let selection := handle_think_selection slack is_channel_allowed st2 selected_value
                     channel3 user3 ts3 in
  selection.1.2
  = [chat_update channel3 ts3
       (if improve_prompt then u "✨ Reformulando prompt..."
        else u "🧠 Analisando profundamente...");
     process_think_message (strip (drop 6 text2)) channel3 user3 ts3 improve_prompt
       (if improve_prompt
        then Some (_get_thread_history conversations_replies channel2 ts2)
        else None)]
  /\ selection.1.1 = cleared
  /\ (forall selected_value' channel4 user4 ts4,
        is_channel_allowed channel4 user4 = true ->
        (handle_think_selection slack is_channel_allowed selection.1.1 selected_value'
           channel4 user4 ts4).1.2
        = [chat_update channel4 ts4 (u "❌ Sessão expirada. Tente novamente com +think.")]).
Proof.
  intros Hquiet Htext Hallowed. cbv zeta.
  rewrite (think_command_stores _ text2 channel2 user2 ts2 (Hquiet _) Htext).
  cbn [fst snd].
  rewrite (think_selection_processes
             {| _pending_think_message := Some (strip (drop 6 text2));
                _pending_think_history := _get_thread_history conversations_replies
                                            channel2 ts2 |}
             (strip (drop 6 text2)) selected_value channel3
             user3 ts3 Hquiet Hallowed eq_refl Htext).
  cbn [fst snd _pending_think_history].
  split; [reflexivity|]. split; [reflexivity|].
  intros selected_value' channel4 user4 ts4 Hallowed'.
  rewrite (think_selection_expired cleared selected_value' channel4 user4 ts4 Hquiet
             Hallowed' eq_refl).
  reflexivity.
Qed.

End ThinkTheorems.

Section ThinkExamples.

Import ThinkCommand.

Lemma pending_think_message_is_shared_witness :
  let quiet := fun _ : call => None in
  let no_history := fun _ _ : option str => Return [] in
  let st1 := (_handle_think_command quiet no_history cleared
                (u "+think plano de carreira da Ana")
                (Some (u "C1")) (Some (u "U1")) (Some (u "10"))).1.1 in
  let st2 := (_handle_think_command quiet no_history st1
                (u "+think orçamento de 2025")
                (Some (u "C2")) (Some (u "U2")) (Some (u "20"))).1.1 in
  (handle_think_selection quiet (fun _ _ => true) st2 (u "value-1")
     (u "C1") (u "U1") (u "11")).1.2
  = [chat_update (u "C1") (u "11") (u "🧠 Analisando profundamente...");
     process_think_message (u "orçamento de 2025") (u "C1") (u "U1") (u "11") false None].
Proof.
  destruct (pending_think_message_is_shared
              (fun _ => None) (fun _ _ => Return []) (fun _ _ => true) cleared
              (u "+think plano de carreira da Ana") (u "+think orçamento de 2025")
              (Some (u "C1")) (Some (u "U1")) (Some (u "10"))
              (Some (u "C2")) (Some (u "U2")) (Some (u "20"))
              (u "value-1") (u "C1") (u "U1") (u "11")
              (fun _ => eq_refl) eq_refl eq_refl) as [Hcalls _].
  cbv zeta. rewrite Hcalls. vm_compute. reflexivity.
Defined.

End ThinkExamples.

(* ===================================================================== *)
(** * Documents *)
(* ===================================================================== *)

Section DocumentFacts.

Import DocumentProcessor.

Lemma ends_with_spec (suffix s : str) :
  ends_with suffix s = true <-> exists pre, s = pre ++ suffix.
Proof.
  unfold ends_with. rewrite starts_with_spec. split.
  - intros [post H]. exists (rev post).
    rewrite <- (rev_involutive s), H, rev_app_distr, rev_involutive. reflexivity.
  - intros [pre ->]. exists (rev pre). apply rev_app_distr.
Qed.

Lemma has_dot_cons (c : char) (s : str) :
  str_in (u ".") (c :: s) = (46 =? c)%N || str_in (u ".") s.
Proof.
  change (u ".") with [46%N]. cbn [str_in starts_with]. rewrite andb_true_r.
  destruct s; reflexivity.
Qed.

Lemma split_dot_cons (c : char) (s : str) :
  split (u ".") (c :: s)
  = if (46 =? c)%N then [] :: split (u ".") s else cons_head c (split (u ".") s).
Proof.
  unfold split. change (u ".") with [46%N]. cbn [split_go starts_with length Nat.sub].
  rewrite andb_true_r. reflexivity.
Qed.

Lemma split_without_dot (s : str) :
  str_in (u ".") s = false -> split (u ".") s = [s].
Proof.
  induction s as [|c s IH]; [reflexivity|].
  rewrite has_dot_cons, split_dot_cons. intros H. apply orb_false_iff in H as [-> H].
  rewrite (IH H). reflexivity.
Qed.

Lemma split_with_dot (s : str) :
  str_in (u ".") s = true -> exists p q ps, split (u ".") s = p :: q :: ps.
Proof.
  induction s as [|c s IH]; [discriminate|].
  rewrite has_dot_cons, split_dot_cons. destruct (46 =? c)%N.
  - intros _. pose proof (split_go_nonempty (u ".") 0 s) as Hne. unfold split.
    destruct (split_go (u ".") 0 s) as [|q ps]; [contradiction|]. eauto.
  - intros H. destruct (IH H) as [p [q [ps ->]]]. simpl. eauto.
Qed.

(** The text after the last full stop, one code point at a time. *)
Lemma last_piece_cons (c : char) (s : str) :
  List.last (split (u ".") (c :: s)) []
  = if (46 =? c)%N || str_in (u ".") s then List.last (split (u ".") s) []
    else c :: List.last (split (u ".") s) [].
Proof.
  rewrite split_dot_cons. destruct (46 =? c)%N eqn:Hc; cbn [orb].
  - pose proof (split_go_nonempty (u ".") 0 s) as Hne. unfold split.
    destruct (split_go (u ".") 0 s); [contradiction | reflexivity].
  - destruct (str_in (u ".") s) eqn:Hs.
    + destruct (split_with_dot s Hs) as [p [q [ps ->]]]. reflexivity.
    + rewrite (split_without_dot s Hs). reflexivity.
Qed.

Lemma last_piece_without_dot (s : str) :
  str_in (u ".") s = false -> List.last (split (u ".") s) [] = s.
Proof. intros H. rewrite (split_without_dot s H). reflexivity. Qed.

Lemma last_piece_after_dot (pre e : str) :
  str_in (u ".") e = false ->
  List.last (split (u ".") (pre ++ u "." ++ e)) [] = e
  /\ str_in (u ".") (pre ++ u "." ++ e) = true.
Proof.
  intros He. induction pre as [|c pre [IH1 IH2]].
  - change ([] ++ u "." ++ e) with (46%N :: e).
    rewrite last_piece_cons, has_dot_cons. cbn [N.eqb Pos.eqb orb].
    split; [apply last_piece_without_dot; exact He | reflexivity].
  - change ((c :: pre) ++ u "." ++ e) with (c :: (pre ++ u "." ++ e)).
    rewrite last_piece_cons, has_dot_cons, IH2, !orb_true_r. split; [exact IH1 | reflexivity].
Qed.

(** A full stop lower-cases to itself, and nothing else lower-cases to
    text with a full stop. *)
Lemma lower_char_dot (c : char) :
  ((46 =? c)%N = true -> lower_char c = [c])
  /\ ((46 =? c)%N = false -> str_in (u ".") (lower_char c) = false
       /\ lower_char c <> []).
Proof.
  unfold lower_char. split.
  - intros H. apply N.eqb_eq in H. subst c. reflexivity.
  - intros H. apply N.eqb_neq in H.
    destruct ((65 <=? c) && (c <=? 90))%N eqn:Hup;
      [|destruct (c =? 8490)%N; [|destruct (c =? 304)%N]].
    + apply andb_true_iff in Hup as [H1 H2]. apply N.leb_le in H1, H2.
      split; [|discriminate]. rewrite has_dot_cons. change (str_in (u ".") []) with false.
      rewrite orb_false_r. apply N.eqb_neq. lia.
    + split; [reflexivity | discriminate].
    + split; [reflexivity | discriminate].
    + split; [|discriminate]. rewrite has_dot_cons. change (str_in (u ".") []) with false.
      rewrite orb_false_r. apply N.eqb_neq. exact H.
Qed.

Lemma has_dot_app (s t : str) :
  str_in (u ".") (s ++ t) = str_in (u ".") s || str_in (u ".") t.
Proof.
  induction s as [|c s IH]; [reflexivity|].
  change ((c :: s) ++ t) with (c :: (s ++ t)). rewrite !has_dot_cons, IH, orb_assoc.
  reflexivity.
Qed.

Lemma has_dot_lower (s : str) : str_in (u ".") (lower s) = str_in (u ".") s.
Proof.
  induction s as [|c s IH]; [reflexivity|].
  change (lower (c :: s)) with (lower_char c ++ lower s).
  rewrite has_dot_app, has_dot_cons, IH. destruct (46 =? c)%N eqn:Hc.
  - rewrite (proj1 (lower_char_dot c) Hc), has_dot_cons, Hc. reflexivity.
  - rewrite (proj1 (proj2 (lower_char_dot c) Hc)). reflexivity.
Qed.

Lemma last_piece_app_without_dot (s t : str) :
  str_in (u ".") s = false ->
  List.last (split (u ".") (s ++ t)) []
  = if str_in (u ".") t then List.last (split (u ".") t) []
    else s ++ List.last (split (u ".") t) [].
Proof.
  induction s as [|c s IH]; [destruct (str_in (u ".") t); reflexivity|].
  rewrite has_dot_cons. intros H. apply orb_false_iff in H as [Hc Hs].
  change ((c :: s) ++ t) with (c :: (s ++ t)).
  rewrite last_piece_cons, Hc, has_dot_app, Hs, (IH Hs). cbn [orb].
  destruct (str_in (u ".") t); reflexivity.
Qed.

(** Taking the text after the last full stop and lower-casing can be done
    in either order. *)
Lemma last_piece_lower (s : str) :
  lower (List.last (split (u ".") s) []) = List.last (split (u ".") (lower s)) [].
Proof.
  induction s as [|c s IH]; [reflexivity|].
  change (lower (c :: s)) with (lower_char c ++ lower s).
  rewrite last_piece_cons. destruct (46 =? c)%N eqn:Hc; cbn [orb].
  - rewrite (proj1 (lower_char_dot c) Hc).
    change ([c] ++ lower s) with (c :: lower s).
    rewrite last_piece_cons, Hc. cbn [orb]. exact IH.
  - destruct (proj2 (lower_char_dot c) Hc) as [Hnodot _].
    rewrite (last_piece_app_without_dot _ _ Hnodot), has_dot_lower.
    destruct (str_in (u ".") s); [exact IH|].
    change (lower (c :: List.last (split (u ".") s) []))
      with (lower_char c ++ lower (List.last (split (u ".") s) [])).
    rewrite IH. reflexivity.
Qed.

Lemma get_file_extension_lower (filename : str) :
  lower (_get_file_extension filename) = _get_file_extension (lower filename).
Proof.
  unfold _get_file_extension. rewrite has_dot_lower.
  destruct (str_in (u ".") filename); [|reflexivity].
  rewrite lower_app, last_piece_lower. reflexivity.
Qed.

(** A name that ends, lower-cased, with one of the supported extensions has
    that extension. *)
Lemma extension_of_suffix (ext filename : str) :
  ext ∈ supported_extensions -> ends_with ext (lower filename) = true ->
  lower (_get_file_extension filename) = ext.
Proof.
  intros Hext Hends. rewrite get_file_extension_lower.
  apply ends_with_spec in Hends as [pre Hpre]. rewrite Hpre. clear Hpre.
  unfold supported_extensions in Hext. rewrite !elem_of_cons, elem_of_nil in Hext.
  unfold _get_file_extension.
  repeat (destruct Hext as [-> | Hext];
          [match goal with
           | |- context [pre ++ u ?e] =>
             let e' := eval vm_compute in (List.tl (u e)) in
             change (pre ++ u e) with (pre ++ u "." ++ e');
             destruct (last_piece_after_dot pre e' eq_refl) as [-> ->]; reflexivity
           end|]).
  destruct Hext.
Qed.

(** X17.  [_is_supported_document] accepts a file exactly when its
    mimetype is a supported type or its extension ([_get_file_extension],
    lower-cased) is a supported extension: the closing loop over
    [filename_lower.endswith(ext)] never accepts a file the two tests
    before it have rejected. *)
Theorem supported_document_by_type_or_extension (mimetype filename : str) :
  _is_supported_document mimetype filename
  = bool_decide (mimetype ∈ supported_types)
    || bool_decide (lower (_get_file_extension filename) ∈ supported_extensions).
Proof.
  unfold _is_supported_document.
  destruct (bool_decide (mimetype ∈ supported_types)); [reflexivity|]. cbn [orb].
  destruct (bool_decide_reflect
              (lower (_get_file_extension filename) ∈ supported_extensions))
    as [Hin|Hout]; [reflexivity|].
  apply not_true_is_false. intros H. apply existsb_exists in H as [ext [Hext Hends]].
  apply Hout. apply list_elem_of_In in Hext.
  rewrite (extension_of_suffix ext filename Hext Hends). exact Hext.
Qed.

(** X18.  A file whose name has no full stop gets the extension [.txt]:
    it is a supported document whatever its mimetype, and it is sent to
    file search. *)
Theorem name_without_dot_is_a_text_document (mimetype filename : str) :
  str_in (u ".") filename = false ->
  _get_file_extension filename = u ".txt"
  /\ _is_supported_document mimetype filename = true
  /\ _should_use_file_search filename = true.
Proof.
  intros H.
  assert (Hext : _get_file_extension filename = u ".txt")
    by (unfold _get_file_extension; rewrite H; reflexivity).
  split; [exact Hext|]. unfold _is_supported_document, _should_use_file_search.
  rewrite Hext. split; [|reflexivity].
  destruct (bool_decide (mimetype ∈ supported_types)); reflexivity.
Qed.

Lemma name_without_dot_is_a_text_document_witness :
  _is_supported_document (u "image/png") (u "foto") = true.
Proof.
  exact (proj1 (proj2 (name_without_dot_is_a_text_document (u "image/png") (u "foto")
                         eq_refl))).
Defined.

End DocumentFacts.

Section UploadFacts.

Import DocumentProcessor.

Variable _download_slack_file : str -> option (list Byte.byte).
Variable _upload_to_openai_files : list Byte.byte -> str -> option str.

Lemma upload_one_names (uploaded_files : list uploaded_file) (doc_file : document_file) :
  exists added,
    upload_one _download_slack_file _upload_to_openai_files uploaded_files doc_file
    = uploaded_files ++ added
    /\ map uploaded_name added
       = if uploads _download_slack_file _upload_to_openai_files doc_file
         then [doc_name doc_file] else [].
Proof.
  unfold upload_one, uploads.
  destruct (_download_slack_file (doc_url doc_file)) as [[|b content]|].
  - exists []. rewrite app_nil_r. split; reflexivity.
  - destruct (_upload_to_openai_files (b :: content) (doc_name doc_file)) as [id|].
    + eexists. split; [reflexivity|]. rewrite bool_decide_eq_true_2 by eauto. reflexivity.
    + exists []. rewrite app_nil_r. split; [reflexivity|].
      rewrite bool_decide_eq_false_2; [reflexivity|]. intros [x Hx]. discriminate.
  - exists []. rewrite app_nil_r. split; reflexivity.
Qed.

Lemma upload_loop_names (document_files : list document_file)
    (uploaded_files : list uploaded_file) :
  map uploaded_name
    (fold_left (upload_one _download_slack_file _upload_to_openai_files)
               document_files uploaded_files)
  = map uploaded_name uploaded_files
    ++ map doc_name
         (List.filter (uploads _download_slack_file _upload_to_openai_files)
                      document_files).
Proof.
  revert uploaded_files. induction document_files as [|doc docs IH]; intros uploaded_files.
  - simpl. rewrite app_nil_r. reflexivity.
  - cbn [fold_left List.filter]. rewrite IH.
    destruct (upload_one_names uploaded_files doc) as [added [-> Hadded]].
    rewrite map_app, Hadded, <- app_assoc.
    destruct (uploads _download_slack_file _upload_to_openai_files doc); reflexivity.
Qed.

Lemma str_in_refl (s : str) : str_in s s = true.
Proof. apply str_in_spec. exists [], []. rewrite app_nil_r. reflexivity. Qed.

Lemma str_in_join (sep p : str) (ps : list str) :
  p ∈ ps -> str_in p (join sep ps) = true.
Proof.
  induction ps as [|q ps IH]; intros Hin; [inversion Hin|].
  destruct ps as [|r ps].
  - apply list_elem_of_singleton in Hin. subst. apply str_in_refl.
  - change (join sep (q :: r :: ps)) with (q ++ sep ++ join sep (r :: ps)).
    apply elem_of_cons in Hin as [-> | Hin].
    + apply str_in_spec. exists [], (sep ++ join sep (r :: ps)). reflexivity.
    + apply str_in_spec. apply IH in Hin. apply str_in_spec in Hin as [a [b Hab]].
      exists (q ++ sep ++ a), b. rewrite Hab, <- !app_assoc. reflexivity.
Qed.

Lemma summary_names (uploaded_files : list uploaded_file) (filename : str) :
  filename ∈ map uploaded_name uploaded_files ->
  str_in filename (format_upload_summary uploaded_files) = true.
Proof.
  intros Hin. unfold format_upload_summary.
  destruct uploaded_files as [|f [|g fs]]; [inversion Hin| |].
  - apply list_elem_of_singleton in Hin. subst.
    apply str_in_spec. exists (u "✅ Processado: "), []. rewrite app_nil_r. reflexivity.
  - apply (str_in_join (u ", ")) in Hin. apply str_in_spec in Hin as [a [b Hab]].
    apply str_in_spec. exists (u "✅ Processados: " ++ a), b.
    rewrite Hab, <- !app_assoc. reflexivity.
Qed.

(** X19.  [upload_to_openai] returns, in the order of the documents,
    exactly those whose download gave content and whose upload gave a file;
    a document that fails does not affect the others, and a download of
    zero bytes counts as a failure.  [format_upload_summary] names every
    document uploaded, and says that none was processed when the list is
    empty. *)
Theorem uploads_are_independent_and_all_named (document_files : list document_file) :
  let uploads := uploads _download_slack_file _upload_to_openai_files in
  let uploaded_files :=
    upload_to_openai _download_slack_file _upload_to_openai_files document_files in
  map uploaded_name uploaded_files = map doc_name (List.filter uploads document_files)
  /\ (forall doc_file, doc_file ∈ document_files ->
       _download_slack_file (doc_url doc_file) = Some [] -> uploads doc_file = false)
  /\ (forall doc_file, doc_file ∈ document_files -> uploads doc_file = true ->
       str_in (doc_name doc_file) (format_upload_summary uploaded_files) = true)
  /\ (uploaded_files = [] ->
       format_upload_summary uploaded_files
       = u "❌ Nenhum documento foi processado com sucesso.").
Proof.
  cbv zeta.
  assert (Hnames : map uploaded_name
                     (upload_to_openai _download_slack_file _upload_to_openai_files
                        document_files)
                   = map doc_name
                       (List.filter (uploads _download_slack_file _upload_to_openai_files)
                                    document_files)).
  { unfold upload_to_openai. rewrite upload_loop_names. reflexivity. }
  split; [exact Hnames|]. split; [|split].
  - intros doc_file _ Hempty. unfold uploads. rewrite Hempty. reflexivity.
  - intros doc_file Hin Hup. apply summary_names. rewrite Hnames.
    apply list_elem_of_fmap. exists doc_file. split; [reflexivity|].
    apply list_elem_of_In, filter_In. split; [apply list_elem_of_In; exact Hin | exact Hup].
  - intros ->. reflexivity.
Qed.

End UploadFacts.

Section UploadExamples.

Import DocumentProcessor.

Lemma uploads_are_independent_and_all_named_witness :
  map uploaded_name (upload_to_openai sample_download sample_upload sample_documents)
  = [u "a.pdf"]
  /\ format_upload_summary (upload_to_openai sample_download sample_upload sample_documents)
     = u "✅ Processado: a.pdf".
Proof.
  destruct (uploads_are_independent_and_all_named sample_download sample_upload
              sample_documents) as [Hnames _].
  split; [rewrite Hnames; vm_compute; reflexivity | vm_compute; reflexivity].
Defined.

End UploadExamples.

(* ===================================================================== *)
(** * The text the guardrail analyses *)
(* ===================================================================== *)

Section GuardrailInput.

Import Guardrails.

(** X20.  For a list input, [professional_content_guardrail] analyses only
    the items that are strings or have a [text] attribute: its result is the
    same without the other items, and a list made only of such other items
    is analysed as the empty message. *)
Theorem guardrail_skips_items_without_text
    (run_guardrail_agent : str -> ProfessionalContentOutput) (items : list input_item) :
  professional_content_guardrail run_guardrail_agent (InputList items)
  = professional_content_guardrail run_guardrail_agent
      (InputList (List.filter has_text items))
  /\ (Forall (fun item => has_text item = false) items ->
      input_text (InputList items) = []
      /\ professional_content_guardrail run_guardrail_agent (InputList items)
         = professional_content_guardrail run_guardrail_agent (InputStr [])).
Proof.
  assert (Hfold : forall acc,
            fold_left (fun text_content item =>
                         match item with
                         | ItemWithText t => text_content ++ t ++ u " "
                         | ItemStr s => text_content ++ s ++ u " "
                         | ItemOther => text_content
                         end) items acc
            = fold_left (fun text_content item =>
                           match item with
                           | ItemWithText t => text_content ++ t ++ u " "
                           | ItemStr s => text_content ++ s ++ u " "
                           | ItemOther => text_content
                           end) (List.filter has_text items) acc).
  { induction items as [|[t|s|] items IH]; intros acc; [reflexivity| | |];
      cbn [List.filter has_text fold_left]; apply IH. }
  assert (Htext : input_text (InputList items)
                  = input_text (InputList (List.filter has_text items))).
  { unfold input_text. rewrite (Hfold []). reflexivity. }
  unfold professional_content_guardrail. rewrite Htext. split; [reflexivity|].
  intros Hall.
  assert (Hnone : List.filter has_text items = []).
  { clear Hfold Htext. induction Hall as [|item items Hitem _ IH]; [reflexivity|].
    cbn [List.filter]. rewrite Hitem. exact IH. }
  rewrite Hnone. split; reflexivity.
Qed.

End GuardrailInput.
